(** * nextjs-unused-finder: a shallow embedding of [src/index.ts]

    The development follows the source file top-down: the JavaScript string
    primitives and the POSIX flavour of Node's [path] module that the program
    calls, a small backtracking matcher for the regular expressions that
    occur in it, the constant tables of [NEXTJS_PATTERNS], and then the
    functions [isNextJsSystemFile], [getFileType], [isFileUsed],
    [getAllFiles], [findImports] and [findUnusedFiles].

    Conventions of the model.
    - A JavaScript string is a [string]: a sequence of code units, here
      restricted to the range 0..255 (Latin-1).  [toLowerCase] and the
      character classes are the restrictions of the JavaScript ones to that
      range.
    - A [Set<string>] constant that is only queried with [has] is a
      [gset string].
    - [Map<string, ImportInfo>] iterates in insertion order, so it is an
      association list in insertion order; [map_set] is [Map.prototype.set].
    - The file system is an explicit argument: a finite directory tree for
      the enumeration (no cycles through links), and two partial functions
      for [readFileSync] and [statSync] ([None] is a thrown exception), so
      that a file can be enumerated and still fail to be read or examined.
    - File sizes are natural numbers ([N]); the sum [totalSize] is exact.
    - [console] output is not modelled, except that [findUnusedFiles]
      collects the files it passes to [console.error]. *)

From Stdlib Require Import Ascii NArith.
From stdpp Require Import base option list strings gmap.


(** ** JavaScript string primitives *)

Module Js.

Definition chars (s : string) : list ascii := String.list_ascii_of_string s.
Definition str (l : list ascii) : string := String.string_of_list_ascii l.

(** [s.startsWith(p)] *)
Definition startsWith (p s : string) : bool := String.prefix p s.

(** [s.includes(x)]: [x] occurs in [s] as a contiguous substring. *)
Fixpoint includes (x s : string) : bool :=
  match s with
  | EmptyString => String.prefix x EmptyString
  | String _ s' => String.prefix x s || includes x s'
  end.

Fixpoint is_prefix (p l : list ascii) : bool :=
  match p, l with
  | [], _ => true
  | _ :: _, [] => false
  | a :: p', b :: l' => Ascii.eqb a b && is_prefix p' l'
  end.

(** [s.endsWith(x)]: read backwards, [x] is a prefix of [s]. *)
Definition endsWith (x s : string) : bool :=
  is_prefix (rev (chars x)) (rev (chars s)).

Definition code (c : ascii) : nat := nat_of_ascii c.

Definition in_range (lo hi : nat) (c : ascii) : bool :=
  (lo <=? code c)%nat && (code c <=? hi)%nat.

(** Lower-casing of one code unit below 256: [A-Z] and the accented
    capitals U+00C0..U+00DE (U+00D7 excepted) move up by 32. *)
Definition lower_char (c : ascii) : ascii :=
  if in_range 65 90 c then ascii_of_nat (code c + 32)
  else if in_range 192 222 c && negb (code c =? 215)%nat
       then ascii_of_nat (code c + 32)
  else c.

Fixpoint toLowerCase (s : string) : string :=
  match s with
  | EmptyString => EmptyString
  | String c s' => String (lower_char c) (toLowerCase s')
  end.

(** [s.split(sep)] for a non-empty separator: the pieces between the
    successive, non-overlapping, leftmost occurrences of [sep].  [skip]
    counts the characters of an occurrence still to be passed over and
    [cur] is the current piece, reversed. *)
Fixpoint split_go (sep : string) (skip : nat) (cur : list ascii)
    (s : string) : list string :=
  match s with
  | EmptyString => [str (rev cur)]
  | String c s' =>
      match skip with
      | S k => split_go sep k cur s'
      | O =>
          if String.prefix sep s
          then str (rev cur) :: split_go sep (String.length sep - 1) [] s'
          else split_go sep 0 (c :: cur) s'
      end
  end.

Definition split (sep s : string) : list string := split_go sep 0 [] s.

End Js.

(** ** Node's [path] module, POSIX flavour *)

Module Path.
Import Js.

Definition is_slash (c : ascii) : bool := Ascii.eqb c "/".
Definition is_dot (c : ascii) : bool := Ascii.eqb c ".".

Fixpoint take_while (p : ascii -> bool) (l : list ascii) : list ascii :=
  match l with
  | c :: l' => if p c then c :: take_while p l' else []
  | [] => []
  end.

Fixpoint drop_while (p : ascii -> bool) (l : list ascii) : list ascii :=
  match l with
  | c :: l' => if p c then drop_while p l' else l
  | [] => []
  end.

(** The last path component, read from the end of the path: trailing
    slashes are passed over, then everything up to the next slash is
    taken.  The result is the component reversed. *)
Definition last_component_rev (path : string) : list ascii :=
  take_while (fun c => negb (is_slash c))
    (drop_while is_slash (rev (chars path))).

(** [basename(path)] *)
Definition basename (path : string) : string :=
  str (rev (last_component_rev path)).

(** Outcome of comparing a suffix with a component, both read backwards. *)
Inductive suffix_cmp :=
| Matched (rest : list ascii)   (* the component minus the suffix, reversed *)
| Mismatch
| Exhausted.                     (* component ended before the suffix did *)

Fixpoint cmp_suffix (suf comp : list ascii) : suffix_cmp :=
  match suf, comp with
  | [], _ => Matched comp
  | _ :: _, [] => Exhausted
  | a :: suf', b :: comp' =>
      if Ascii.eqb a b then cmp_suffix suf' comp' else Mismatch
  end.

(** [basename(path, suffix)].  The suffix is removed when the component
    ends with it and is not equal to it; when the component is a proper
    tail of the suffix Node returns the path from the start of the
    component to its very end, trailing slashes included. *)
Definition basename_suffix (path suffix : string) : string :=
  if (String.length suffix =? 0)%nat
     || (String.length path <? String.length suffix)%nat
  then basename path
  else if String.eqb suffix path then EmptyString
  else
    let r := rev (chars path) in
    let comp := last_component_rev path in
    match cmp_suffix (rev (chars suffix)) comp with
    | Matched [] => str (rev comp)
    | Matched rest => str (rev rest)
    | Mismatch => str (rev comp)
    | Exhausted => str (rev comp ++ rev (take_while is_slash r))
    end.

(** The extension of a component given reversed: from its last dot to
    its end; empty when there is no dot, when the only dot is the first
    character, and for the component [..]. *)
Definition ext_of_rev (comp : list ascii) : list ascii :=
  let after := take_while (fun c => negb (is_dot c)) comp in
  match drop_while (fun c => negb (is_dot c)) comp with
  | [] => []
  | _dot :: before =>
      match before, after with
      | [], _ => []
      | [d], [] => if is_dot d then [] else ["."%char]
      | _, _ => "."%char :: rev after
      end
  end.

(** [extname(path)] *)
Definition extname (path : string) : string :=
  str (ext_of_rev (last_component_rev path)).

(** [dirname(path)].  Node scans the indices [length-1 .. 1]; index 0 is
    never inspected, it only decides between the results [/] and [.]. *)
Definition dirname (path : string) : string :=
  match chars path with
  | [] => "."
  | c0 :: tl =>
      let hasRoot := is_slash c0 in
      let t1 := drop_while is_slash (rev tl) in
      match drop_while (fun c => negb (is_slash c)) t1 with
      | [] => if hasRoot then "/" else "."
      | _slash :: before =>
          match before with
          | [] => if hasRoot then "//" else str [c0]
          | _ => str (c0 :: rev before)
          end
      end
  end.

(** *** [normalize] and [join] *)

(** The segments between slashes, empty ones included. *)
Definition segments (path : string) : list string := split "/" path.

(** One step of [normalizeString]: [res] holds the kept segments, last
    one first. *)
Definition norm_step (allowAboveRoot : bool) (res : list string)
    (seg : string) : list string :=
  if String.eqb seg EmptyString || String.eqb seg "." then res
  else if String.eqb seg ".." then
    match res with
    | [] => if allowAboveRoot then [".."] else []
    | last :: res' =>
        if String.eqb last ".."
        then if allowAboveRoot then ".." :: res else res
        else res'
    end
  else seg :: res.

Definition normalizeString (path : string) (allowAboveRoot : bool) : string :=
  let kept := rev (fold_left (norm_step allowAboveRoot) (segments path) []) in
  match kept with
  | [] => EmptyString
  | s :: rest => fold_left (fun acc x => acc +:+ "/" +:+ x) rest s
  end.

Definition normalize (path : string) : string :=
  match chars path with
  | [] => "."
  | c0 :: _ =>
      let isAbsolute := is_slash c0 in
      let trailing := endsWith "/" path in
      let p := normalizeString path (negb isAbsolute) in
      if String.eqb p EmptyString then
        if isAbsolute then "/" else if trailing then "./" else "."
      else
        let p' := if trailing then p +:+ "/" else p in
        if isAbsolute then "/" +:+ p' else p'
  end.

(** [join(a, b)]: the non-empty arguments joined by a slash, then
    normalized. *)
Definition join (a b : string) : string :=
  match String.eqb a EmptyString, String.eqb b EmptyString with
  | true, true => "."
  | true, false => normalize b
  | false, true => normalize a
  | false, false => normalize (a +:+ "/" +:+ b)
  end.

End Path.


(** ** Regular expressions

    The fragment of JavaScript regular expressions that [src/index.ts]
    uses: character classes, greedy repetition of a class, concatenation,
    ordered alternation, one capturing group, and the anchors.  Matching is
    the backtracking semantics of the language (leftmost start, first
    alternative first, longest repetition first), written with an explicit
    continuation. *)

Module Regex.
Import Js.

Definition cls := ascii -> bool.

Definition one (c : ascii) : cls := fun x => Ascii.eqb x c.
Definition any_of (l : list ascii) : cls := fun x => existsb (Ascii.eqb x) l.
Definition none_of (l : list ascii) : cls := fun x => negb (any_of l x).
Definition either (p q : cls) : cls := fun x => p x || q x.

Definition upper : cls := in_range 65 90.                       (* [A-Z] *)
Definition lower : cls := in_range 97 122.                      (* [a-z] *)
Definition digit : cls := in_range 48 57.                       (* [0-9] *)
Definition word : cls :=                                        (* \w *)
  either upper (either lower (either digit (one "_"))).
Definition space : cls :=                                       (* \s *)
  any_of ["009"; "010"; "011"; "012"; "013"; " "; "160"]%char.
Definition dot : cls := none_of ["010"; "013"]%char.            (* . *)

Inductive re :=
| Eps
| Chr (p : cls)
| Star (p : cls)
| Cat (r1 r2 : re)
| Alt (r1 r2 : re)
| Grp (r : re)
| Bol
| Eol.

Definition Plus (p : cls) : re := Cat (Chr p) (Star p).
Definition seq (l : list re) : re := foldr Cat Eps l.
Definition lit (s : string) : re := seq ((fun c => Chr (one c)) <$> chars s).

(** A position in the input: its index, the input from there on, and
    the text of group 1 if it has matched. *)
Record mstate := MState {
  pos : nat;
  rest : list ascii;
  cap : option (list ascii)
}.

Definition cont := mstate -> option mstate.

Fixpoint star_k (p : cls) (k : cont) (i : nat) (l : list ascii)
    (c : option (list ascii)) : option mstate :=
  match l with
  | a :: l' =>
      if p a then
        match star_k p k (S i) l' c with
        | Some r => Some r
        | None => k (MState i l c)
        end
      else k (MState i l c)
  | [] => k (MState i [] c)
  end.

Fixpoint run (r : re) (k : cont) (st : mstate) : option mstate :=
  match r with
  | Eps => k st
  | Chr p =>
      match rest st with
      | a :: l' => if p a then k (MState (S (pos st)) l' (cap st)) else None
      | [] => None
      end
  | Star p => star_k p k (pos st) (rest st) (cap st)
  | Cat r1 r2 => run r1 (run r2 k) st
  | Alt r1 r2 =>
      match run r1 k st with
      | Some x => Some x
      | None => run r2 k st
      end
  | Grp r1 =>
      run r1 (fun st' =>
                k (MState (pos st') (rest st')
                     (Some (take (pos st' - pos st) (rest st))))) st
  | Bol => if (pos st =? 0)%nat then k st else None
  | Eol => match rest st with [] => k st | _ :: _ => None end
  end.

(** A match that starts exactly at the given position. *)
Definition match_at (r : re) (i : nat) (l : list ascii) : option mstate :=
  run r Some (MState i l None).

(** The leftmost match at or after position [i]: its start and its end
    state. *)
Fixpoint search (r : re) (i : nat) (l : list ascii) : option (nat * mstate) :=
  match match_at r i l with
  | Some st => Some (i, st)
  | None =>
      match l with
      | [] => None
      | _ :: l' => search r (S i) l'
      end
  end.

(** [r.test(s)] for a pattern without the [g] flag. *)
Definition test (r : re) (s : string) : bool :=
  bool_decide (is_Some (search r 0 (chars s))).

(** One result of a global match: the matched text and group 1. *)
Record rmatch := RMatch { whole : string; group1 : option string }.

(** The successive matches of a pattern with the [g] flag, each search
    resuming where the previous match ended (one further on after an
    empty match).  [skip] counts the characters of the previous match
    still to be passed over. *)
Fixpoint matches_go (r : re) (skip i : nat) (l : list ascii) : list rmatch :=
  match skip with
  | S k =>
      match l with
      | [] => []
      | _ :: l' => matches_go r k (S i) l'
      end
  | O =>
      match match_at r i l with
      | Some st =>
          let n := pos st - i in
          RMatch (str (take n l)) (str <$> cap st)
            :: match l with
               | [] => []
               | _ :: l' => matches_go r (n - 1) (S i) l'
               end
      | None =>
          match l with
          | [] => []
          | _ :: l' => matches_go r 0 (S i) l'
          end
      end
  end.

Definition matches (r : re) (s : string) : list rmatch :=
  matches_go r 0 0 (chars s).

(** [s.match(r)] for a pattern with the [g] flag: [null] when nothing
    matches, otherwise the array of the matched texts. *)
Definition match_all (r : re) (s : string) : option (list string) :=
  match matches r s with
  | [] => None
  | ms => Some (whole <$> ms)
  end.

(** [s.replace(r, empty)] for a pattern without the [g] flag: the
    leftmost match is removed. *)
Definition remove_first (r : re) (s : string) : string :=
  match search r 0 (chars s) with
  | Some (start, st) => str (take start (chars s) ++ rest st)
  | None => s
  end.

End Regex.


(** ** The program *)

Import Js Path Regex.

(** [type FileType] *)
Inductive FileType :=
| media | component | util | type_ | hook | context_ | style | api | page.

Global Instance FileType_eq_dec : EqDecision FileType.
Proof. solve_decision. Defined.

(** [interface UnusedFile] *)
Record UnusedFile := mkUnusedFile {
  uf_path : string;
  uf_size : N;
  uf_type : FileType;
  uf_reason : option string
}.

Global Instance UnusedFile_eq_dec : EqDecision UnusedFile.
Proof. solve_decision. Defined.

(** [interface ImportInfo] *)
Record ImportInfo := mkImportInfo {
  imports : gset string;
  exports : gset string;
  content : string;
  filePath : string
}.

(** [Set.prototype.has] *)
Definition has (x : string) (s : gset string) : bool := bool_decide (x ∈ s).

(** [const NEXTJS_PATTERNS] *)
Module NEXTJS_PATTERNS.

Definition criticalFiles : gset string :=
  {[ "layout.tsx"; "page.tsx"; "loading.tsx"; "error.tsx"; "not-found.tsx";
     "route.ts"; "middleware.ts"; "robots.ts"; "sitemap.ts"; "manifest.ts";
     "global.d.ts"; "globals.css"; "analytics.ts"; "metadata.ts"; "schema.js" ]}.

Definition specialDirs : gset string :=
  {[ "api"; "app"; "_components"; "utils"; "lib"; "hooks"; "contexts" ]}.

Definition ignoredPaths : gset string :=
  {[ "node_modules"; ".next"; "dist"; ".git"; ".husky";
     "public/chunks"; "public/static" ]}.

Definition mediaExtensions : gset string :=
  {[ ".jpg"; ".jpeg"; ".png"; ".gif"; ".svg"; ".webp"; ".ico"; ".mp4";
     ".webm"; ".m4s"; ".mp3"; ".wav"; ".ogg" ]}.

Definition codeExtensions : gset string :=
  {[ ".ts"; ".tsx"; ".js"; ".jsx"; ".css"; ".scss"; ".sass"; ".less" ]}.

(** The three quote characters of the API patterns: single quote,
    double quote and backtick, written [Q] below. *)
Definition quote3 : list ascii := ["'"; "034"; "`"]%char.

(** [/fetch\([Q]\/api\/([^Q]+)[Q]\)/g] *)
Definition fetchPattern : re :=
  seq [lit "fetch("; Chr (any_of quote3); lit "/api/";
       Grp (Plus (none_of quote3)); Chr (any_of quote3); lit ")"].

(** [/axios\.[a-z]+\([Q]\/api\/([^Q]+)[Q]\)/g] *)
Definition axiosPattern : re :=
  seq [lit "axios."; Plus lower; lit "("; Chr (any_of quote3); lit "/api/";
       Grp (Plus (none_of quote3)); Chr (any_of quote3); lit ")"].

(** [/\/api\/([a-zA-Z0-9-_/]+)/g]; in the class the hyphen after [0-9]
    stands for itself. *)
Definition barePattern : re :=
  seq [lit "/api/";
       Grp (Plus (either lower (either upper (either digit
                    (any_of ["-"; "_"; "/"]%char)))))].

Definition apiPatterns : list re := [fetchPattern; axiosPattern; barePattern].

End NEXTJS_PATTERNS.
Import NEXTJS_PATTERNS.

(** [function isNextJsSystemFile] *)
Definition isNextJsSystemFile (filePath : string) : bool :=
  let fileName := basename filePath in
  let dirName := basename (dirname filePath) in
  if has fileName criticalFiles then true
  else if includes "/api/" filePath then true
  else if String.eqb dirName "app" && startsWith "page." fileName then true
  else false.

(** The regular expressions of [getFileType]; none carries a flag, and
    [test] does not observe their groups. *)
Definition componentRe : re :=      (* /^[A-Z].*\.(tsx|jsx)$/ *)
  seq [Bol; Chr upper; Star dot; lit "."; Alt (lit "tsx") (lit "jsx"); Eol].
Definition hookRe : re :=           (* /^use[A-Z].*\.(ts|tsx)$/ *)
  seq [Bol; lit "use"; Chr upper; Star dot; lit "."; Alt (lit "ts") (lit "tsx"); Eol].
Definition contextRe : re :=        (* /(Context|Provider)\.(ts|tsx)$/ *)
  seq [Alt (lit "Context") (lit "Provider"); lit "."; Alt (lit "ts") (lit "tsx"); Eol].
Definition typeRe : re :=           (* /\.d\.ts$/ *)
  seq [lit ".d.ts"; Eol].
Definition styleRe : re :=          (* /\.(css|scss|sass|less)$/ *)
  seq [lit "."; Alt (lit "css") (Alt (lit "scss") (Alt (lit "sass") (lit "less"))); Eol].

(** [function getFileType] *)
Definition getFileType (filePath : string) : FileType :=
  let fileName := basename filePath in
  let ext := toLowerCase (extname filePath) in
  if includes "/api/" filePath then api
  else if includes "/app/" filePath && startsWith "page." fileName then page
  else if has ext mediaExtensions then media
  else if test componentRe fileName then component
  else if test hookRe fileName then hook
  else if test contextRe fileName then context_
  else if test typeRe fileName then type_
  else if test styleRe fileName then style
  else util.

(** [Map<string, ImportInfo>], in insertion order. *)
Abbreviation ImportMap := (list (string * ImportInfo)).

(** [Map.prototype.set]: an existing key keeps its place. *)
Fixpoint map_set (k : string) (v : ImportInfo) (m : ImportMap) : ImportMap :=
  match m with
  | [] => [(k, v)]
  | (k', v') :: m' =>
      if String.eqb k' k then (k, v) :: m' else (k', v') :: map_set k v m'
  end.

(** [Map.prototype.get] *)
Fixpoint map_get (k : string) (m : ImportMap) : option ImportInfo :=
  match m with
  | [] => None
  | (k', v') :: m' => if String.eqb k' k then Some v' else map_get k m'
  end.

(** The optional chain of line 225: element 1 of the split at [/api/],
    with a final [.js] or [.ts] removed by [/\.[jt]s$/]. *)
Definition apiPathOf (file : string) : option string :=
  remove_first (seq [lit "."; Chr (any_of ["j"; "t"]%char); lit "s"; Eol])
    <$> (split "/api/" file !! 1%nat).

(** The callback given to [apiPatterns.some] in [isFileUsed]. *)
Definition apiPatternHits (apiPath text : string) (pattern : re) : bool :=
  match match_all pattern text with
  | None => false
  | Some ms => existsb (fun m => includes apiPath m) ms
  end.

(** The condition of the API branch, lines 226-232. *)
Definition apiRuleHits (file text : string) : bool :=
  match apiPathOf file with
  | None => false
  | Some apiPath =>
      negb (String.eqb apiPath EmptyString)
      && existsb (apiPatternHits apiPath text) apiPatterns
  end.

(** One turn of the loop of [isFileUsed] for a record other than the
    file's own: [true] is [isUsed = true; break], [false] is falling
    through to the next record. *)
Definition entryHits (file : string) (otherInfo : ImportInfo) : bool :=
  let fileName := basename file in
  let fileBaseName := basename_suffix file (extname file) in
  if includes fileBaseName (content otherInfo) then true
  else if includes "/api/" file && apiRuleHits file (content otherInfo)
  then true
  else if has (toLowerCase (extname file)) mediaExtensions
          && includes fileName (content otherInfo)
  then true
  else false.

(** The loop of [isFileUsed].  Besides the final value of [isUsed] it
    returns the keys of the records whose content it has inspected. *)
Fixpoint scanEntries (file : string) (entries : ImportMap) : bool * list string :=
  match entries with
  | [] => (false, [])
  | (otherFile, otherInfo) :: entries' =>
      if String.eqb otherFile file then scanEntries file entries'
      else if entryHits file otherInfo then (true, [otherFile])
      else let r := scanEntries file entries' in (r.1, otherFile :: r.2)
  end.

(** [function isFileUsed], with the inspected records.  The lookup
    [importMap.get(file)] of line 207 is not used by the function. *)
Definition isFileUsed_run (file : string) (importMap : ImportMap)
    : bool * list string :=
  if isNextJsSystemFile file then (true, [])
  else scanEntries file importMap.

(** [function isFileUsed] *)
Definition isFileUsed (file : string) (importMap : ImportMap) : bool :=
  (isFileUsed_run file importMap).1.

(** The records [isFileUsed] inspects. *)
Definition isFileUsed_scanned (file : string) (importMap : ImportMap)
    : list string :=
  (isFileUsed_run file importMap).2.


(** ** The file system and the run *)

#[local] Set Warnings "-register-all".

(** What [getAllFiles] can find at a path. *)
Inductive fsnode :=
| FsFile                                     (* anything that is not a directory *)
| FsDir (items : list (string * fsnode))     (* a directory and its entries *)
| FsDirUnreadable                            (* a directory; [readdirSync] throws *)
| FsStatError.                               (* [statSync] throws, [existsSync] is false *)

(** [function getAllFiles] on a node that exists at [dir].  An exception
    of [readdirSync] or [statSync] leaves the loop; the results gathered
    before it are returned. *)
Fixpoint walk (dir : string) (node : fsnode) : list string :=
  match node with
  | FsDir items =>
      (fix loop (items : list (string * fsnode)) : list string :=
         match items with
         | [] => []
         | (item, child) :: items' =>
             if has item ignoredPaths then loop items'
             else
               let fullPath := join dir item in
               match child with
               | FsStatError => []
               | FsFile => fullPath :: loop items'
               | FsDir _ | FsDirUnreadable => (walk fullPath child ++ loop items')%list
               end
         end) items
  | FsFile | FsDirUnreadable | FsStatError => []
  end.

(** [function getAllFiles]; [None] is a path at which nothing exists. *)
Definition getAllFiles (dir : string) (node : option fsnode) : list string :=
  match node with
  | None | Some FsStatError => []
  | Some n => walk dir n
  end.

(** The patterns of [findImports]; [q] is the class of the single and the
    double quote. *)
Definition quote2 : list ascii := ["'"; "034"]%char.

Definition importPatterns : list re :=
  [ (* /import\s+(?:{[\s\w,]+}|\w+)\s+from\s+[q]([^q]+)[q]/g *)
    seq [lit "import"; Plus space;
         Alt (seq [lit "{"; Plus (either space (either word (one ","))); lit "}"])
             (Plus word);
         Plus space; lit "from"; Plus space;
         Chr (any_of quote2); Grp (Plus (none_of quote2)); Chr (any_of quote2)];
    (* /import\([q]([^q]+)[q]\)/g *)
    seq [lit "import("; Chr (any_of quote2); Grp (Plus (none_of quote2));
         Chr (any_of quote2); lit ")"];
    (* /require\([q]([^q]+)[q]\)/g *)
    seq [lit "require("; Chr (any_of quote2); Grp (Plus (none_of quote2));
         Chr (any_of quote2); lit ")"];
    (* /dynamic\([^)]+[q]\)/g *)
    seq [lit "dynamic("; Plus (none_of [")"]%char); Chr (any_of quote2); lit ")"] ].

(** [/\.(js|jsx|ts|tsx)$/] *)
Definition scriptExtRe : re :=
  seq [lit "."; Alt (lit "js") (Alt (lit "jsx") (Alt (lit "ts") (lit "tsx"))); Eol].

(** The body of the [while] loop of [findImports] for one match. *)
Definition addImport (acc : gset string) (m : rmatch) : gset string :=
  match group1 m with
  | Some g =>
      if negb (String.eqb g EmptyString) && startsWith "." g
      then {[ remove_first scriptExtRe g ]} ∪ ({[ g ]} ∪ acc)
      else acc
  | None => acc
  end.

(** [function findImports] *)
Definition findImports (text : string) : gset string :=
  fold_left (fun acc pattern => fold_left addImport (matches pattern text) acc)
    importPatterns ∅.

(** The inputs of a run. *)
Record world := mkWorld {
  cwd : string;                           (* [process.cwd()] *)
  srcTree : option fsnode;                (* what lies at [join cwd "src"] *)
  publicTree : option fsnode;             (* what lies at [join cwd "public"] *)
  readFileSync : string -> option string; (* [None]: the read throws *)
  statSize : string -> option N           (* [statSync(f).size]; [None]: it throws *)
}.

(** The state the three loops of [findUnusedFiles] thread. *)
Record report := mkReport {
  unusedFiles : list UnusedFile;
  totalSize : N;
  errors : list string                    (* files passed to [console.error] *)
}.

(** First loop, lines 394-406: the index and the files whose read failed. *)
Fixpoint buildImportMap (read : string -> option string) (files : list string)
    (acc : ImportMap * list string) : ImportMap * list string :=
  match files with
  | [] => acc
  | file :: files' =>
      match read file with
      | Some text =>
          buildImportMap read files'
            (map_set file (mkImportInfo (findImports text) ∅ text file) acc.1, acc.2)
      | None => buildImportMap read files' (acc.1, (acc.2 ++ [file])%list)
      end
  end.

(** The [try] block shared by the second and the third loop. *)
Definition pushUnused (stat : string -> option N) (file : string)
    (ty : FileType) (r : report) : report :=
  match stat file with
  | Some size =>
      mkReport (unusedFiles r ++ [mkUnusedFile file size ty None])%list
               (totalSize r + size)%N (errors r)
  | None => mkReport (unusedFiles r) (totalSize r) (errors r ++ [file])%list
  end.

(** Second loop, lines 408-422. *)
Fixpoint reportSourceFiles (stat : string -> option N) (importMap : ImportMap)
    (files : list string) (r : report) : report :=
  match files with
  | [] => r
  | file :: files' =>
      reportSourceFiles stat importMap files'
        (if negb (isFileUsed file importMap)
         then pushUnused stat file (getFileType file) r
         else r)
  end.

(** The condition of the [continue] of the third loop, lines 428-433. *)
Definition alwaysUsedAsset (fileName : string) : bool :=
  String.eqb fileName "robots.txt"
  || String.eqb fileName "sitemap.xml"
  || includes "segment_" fileName
  || endsWith ".m4s" fileName.

(** The inner loop of the third loop, lines 437-442: the final [isUsed]. *)
Fixpoint assetIsUsed (fileName : string) (entries : ImportMap) : bool :=
  match entries with
  | [] => false
  | (_, info) :: entries' =>
      if includes fileName (content info) then true
      else assetIsUsed fileName entries'
  end.

(** Third loop, lines 424-457. *)
Fixpoint reportPublicFiles (stat : string -> option N) (importMap : ImportMap)
    (files : list string) (r : report) : report :=
  match files with
  | [] => r
  | file :: files' =>
      let fileName := basename file in
      reportPublicFiles stat importMap files'
        (if alwaysUsedAsset fileName then r
         else if negb (assetIsUsed fileName importMap)
         then pushUnused stat file media r
         else r)
  end.

Definition sourceFilesOf (allFiles : list string) : list string :=
  filter (fun file => has (toLowerCase (extname file)) codeExtensions = true) allFiles.

(** [function findUnusedFiles], up to the printing of the report. *)
Definition findUnusedFiles (w : world) : report :=
  let rootDir := cwd w in
  let publicDir := join rootDir "public" in
  let srcDir := join rootDir "src" in
  let allFiles := getAllFiles srcDir (srcTree w) in
  let publicFiles := getAllFiles publicDir (publicTree w) in
  let sourceFiles := sourceFilesOf allFiles in
  let idx := buildImportMap (readFileSync w) sourceFiles ([], []) in
  let r1 := reportSourceFiles (statSize w) idx.1 sourceFiles (mkReport [] 0%N idx.2) in
  reportPublicFiles (statSize w) idx.1 publicFiles r1.

(** The values of [sourceFiles], [publicFiles] and [importMap] in a run. *)
Definition sourceFiles (w : world) : list string :=
  sourceFilesOf (getAllFiles (join (cwd w) "src") (srcTree w)).

Definition publicFiles (w : world) : list string :=
  getAllFiles (join (cwd w) "public") (publicTree w).

Definition indexOf (w : world) : ImportMap :=
  (buildImportMap (readFileSync w) (sourceFiles w) ([], [])).1.

(** The paths of a report. *)
Definition reportedPaths (r : report) : list string := uf_path <$> unusedFiles r.

(** ** Definitions used to state the properties *)

(** The three critical-file rules, as properties of a path. *)
Definition criticalRule (filePath : string) : Prop :=
  basename filePath ∈ criticalFiles
  ∨ includes "/api/" filePath = true
  ∨ (basename (dirname filePath) = "app"
     ∧ startsWith "page." (basename filePath) = true).

(** [isFileUsed] with the API branch of lines 224-236 removed; the rest
    is unchanged. *)
Definition entryHits_noApi (file : string) (otherInfo : ImportInfo) : bool :=
  let fileName := basename file in
  let fileBaseName := basename_suffix file (extname file) in
  if includes fileBaseName (content otherInfo) then true
  else if has (toLowerCase (extname file)) mediaExtensions
          && includes fileName (content otherInfo)
  then true
  else false.

Fixpoint scanEntries_noApi (file : string) (entries : ImportMap)
    : bool * list string :=
  match entries with
  | [] => (false, [])
  | (otherFile, otherInfo) :: entries' =>
      if String.eqb otherFile file then scanEntries_noApi file entries'
      else if entryHits_noApi file otherInfo then (true, [otherFile])
      else let r := scanEntries_noApi file entries' in (r.1, otherFile :: r.2)
  end.

Definition isFileUsed_noApi_run (file : string) (importMap : ImportMap)
    : bool * list string :=
  if isNextJsSystemFile file then (true, [])
  else scanEntries_noApi file importMap.

Definition isFileUsed_noApi (file : string) (importMap : ImportMap) : bool :=
  (isFileUsed_noApi_run file importMap).1.

(** The category rules in the order api, page, media, component, hook,
    context, type, style, util; the last one accepts every path. *)
Definition categoryRules : list (FileType * (string -> bool)) :=
  [ (api, fun p => includes "/api/" p);
    (page, fun p => includes "/app/" p && startsWith "page." (basename p));
    (media, fun p => has (toLowerCase (extname p)) mediaExtensions);
    (component, fun p => test componentRe (basename p));
    (hook, fun p => test hookRe (basename p));
    (context_, fun p => test contextRe (basename p));
    (type_, fun p => test typeRe (basename p));
    (style, fun p => test styleRe (basename p));
    (util, fun _ => true) ].

(** The category of the first rule that accepts the path. *)
Fixpoint firstMatch (rules : list (FileType * (string -> bool))) (p : string)
    : option FileType :=
  match rules with
  | [] => None
  | (c, accepts) :: rules' => if accepts p then Some c else firstMatch rules' p
  end.

(** Whether a record makes the loop of [isFileUsed] stop with [true]. *)
Definition recordHits (file : string) (e : string * ImportInfo) : bool :=
  negb (String.eqb e.1 file) && entryHits file e.2.

(** What an index shows of its records when the import and export sets
    are left out. *)
Definition rawView (m : ImportMap) : list (string * string) :=
  (fun e => (e.1, content e.2)) <$> m.

(** The record the first loop stores for a file with the given text. *)
Definition recordOf (file text : string) : ImportInfo :=
  mkImportInfo (findImports text) ∅ text file.

(** Every record of the index is the one the first loop stores for its
    key, given what [readFileSync] returns. *)
Definition wellFormed (read : string -> option string) (m : ImportMap) : Prop :=
  forall k v, (k, v) ∈ m -> exists text, read k = Some text /\ v = recordOf k text.

(** A record with the given text and nothing else. *)
Definition textRecord (file text : string) : ImportInfo :=
  mkImportInfo ∅ ∅ text file.

(** What the second loop appends to the report for one source file. *)
Definition sourceEntry (stat : string -> option N) (m : ImportMap)
    (file : string) : option UnusedFile :=
  if isFileUsed file m then None
  else (fun size => mkUnusedFile file size (getFileType file) None) <$> stat file.

(** What the third loop appends to the report for one public file. *)
Definition publicEntry (stat : string -> option N) (m : ImportMap)
    (file : string) : option UnusedFile :=
  if alwaysUsedAsset (basename file) then None
  else if assetIsUsed (basename file) m then None
  else (fun size => mkUnusedFile file size media None) <$> stat file.

(** *** Concrete runs *)

Definition constStat (size : N) : string -> option N := fun _ => Some size.

(** A source tree with [Button.tsx], [App.tsx] (which mentions [Button]
    and [logo]), [orphan.ts] and [app/page.tsx]; a public tree with
    [logo.png] and [robots.txt]. *)
Definition demoWorld : world :=
  mkWorld "/r"
    (Some (FsDir [("Button.tsx", FsFile); ("App.tsx", FsFile);
                  ("orphan.ts", FsFile); ("notes.md", FsFile);
                  ("app", FsDir [("page.tsx", FsFile)]);
                  ("node_modules", FsDir [("dep.ts", FsFile)])]))
    (Some (FsDir [("logo.png", FsFile); ("robots.txt", FsFile)]))
    (fun f => if String.eqb f "/r/src/App.tsx"
              then Some "import { Button } from './Button'; // logo"
              else Some "export {}")
    (constStat 10).

(** Two source files, of which [orphan.ts] cannot be read but can be
    examined with [statSync], and one public file. *)
Definition unreadableWorld : world :=
  mkWorld "/r"
    (Some (FsDir [("orphan.ts", FsFile); ("main.ts", FsFile)]))
    (Some (FsDir [("logo.png", FsFile)]))
    (fun f => if String.eqb f "/r/src/orphan.ts" then None else Some "export {}")
    (constStat 10).

(** One source file whose name contains [segment_]. *)
Definition segmentWorld : world :=
  mkWorld "/r"
    (Some (FsDir [("segment_utils.ts", FsFile)]))
    (Some (FsDir [("segment_001.ts", FsFile)]))
    (fun _ => Some "export {}")
    (constStat 10).

(** A public tree with generated chunks. *)
Definition chunksTree : fsnode :=
  FsDir [("chunks", FsDir [("main.js", FsFile)]);
         ("static", FsDir [("media", FsDir [("a.png", FsFile)])]);
         ("node_modules", FsDir [("dep.js", FsFile)]);
         ("favicon.ico", FsFile)].

(** The project [/r] with that public tree and no source tree. *)
Definition chunksWorld : world :=
  mkWorld "/r" None (Some chunksTree) (fun _ => None) (constStat 10).

(** The members of [ignoredPaths] that can be the name of a directory
    entry. *)
Definition prunableNames : list string :=
  ["node_modules"; ".next"; "dist"; ".git"; ".husky"].

(** ** Further definitions used to state properties of the code *)

(** [basename(file, extname(file))], the name [isFileUsed] looks for. *)
Definition fileBaseNameOf (file : string) : string :=
  basename_suffix file (extname file).

(** The keys of the records other than the file's own, in index order. *)
Definition otherKeys (file : string) (m : ImportMap) : list string :=
  (filter (fun e => e.1 <> file) m).*1.

(** What the first loop stores for one file, if its read succeeds. *)
Definition indexEntry (read : string -> option string) (file : string)
    : option (string * ImportInfo) :=
  (fun text => (file, recordOf file text)) <$> read file.

(** *** The grouping of [printResults] *)

(** One step of the [reduce] of lines 311-315: the file joins the array
    stored under its type, which is created at the end of the object when
    the type is new.  The object's keys are the nine type names, so they
    are listed in the order in which they were first stored. *)
Fixpoint addToGroup (file : UnusedFile) (acc : list (FileType * list UnusedFile))
    : list (FileType * list UnusedFile) :=
  match acc with
  | [] => [(uf_type file, [file])]
  | (t, files) :: acc' =>
      if decide (t = uf_type file) then (t, files ++ [file]) :: acc'
      else (t, files) :: addToGroup file acc'
  end.

(** [groupedFiles], lines 311-315. *)
Definition groupedFiles (unused : list UnusedFile)
    : list (FileType * list UnusedFile) :=
  fold_left (fun acc file => addToGroup file acc) unused [].

(** [files.reduce((acc, file) => acc + file.size, 0)], line 337. *)
Definition sizeForType (files : list UnusedFile) : N :=
  fold_left (fun acc file => (acc + uf_size file)%N) files 0%N.

(** The groups for which the loop of lines 331-350 prints a section: the
    ones that pass the test [files.length === 0] of line 332. *)
Definition printedGroups (unused : list UnusedFile)
    : list (FileType * list UnusedFile) :=
  filter (fun g => length g.2 <> 0%nat) (groupedFiles unused).

(** The elements of a list in the order of their first occurrence. *)
Fixpoint firstOccurrences (l : list FileType) : list FileType :=
  match l with
  | [] => []
  | t :: l' => t :: filter (fun t' => t' <> t) (firstOccurrences l')
  end.

(** *** Regular expressions: what a match consumes *)

(** Whether a pattern contains the capturing group. *)
Fixpoint hasGroup (r : re) : bool :=
  match r with
  | Grp _ => true
  | Cat r1 r2 | Alt r1 r2 => hasGroup r1 || hasGroup r2
  | Eps | Chr _ | Star _ | Bol | Eol => false
  end.

(** [st'] lies [n] characters further on in the input than [st]. *)
Definition reaches (st st' : mstate) : Prop :=
  exists n, pos st' = pos st + n /\ rest st' = drop n (rest st)
            /\ n <= length (rest st).

(** Every string of the set begins with a dot or is empty. *)
Definition relativeTargets (acc : gset string) : Prop :=
  forall g, g ∈ acc -> g = EmptyString \/ startsWith "." g = true.

(** *** Paths of a directory tree *)

(** The name a directory entry can have: not empty, without a slash, and
    neither [.] nor [..]. *)
Definition plainName (s : string) : bool :=
  negb (String.eqb s EmptyString) && negb (includes "/" s)
  && negb (String.eqb s ".") && negb (String.eqb s "..").

(** A tree all of whose entries have such names. *)
Fixpoint plainTree (node : fsnode) : bool :=
  match node with
  | FsDir items =>
      (fix all (items : list (string * fsnode)) : bool :=
         match items with
         | [] => true
         | (item, child) :: items' =>
             plainName item && plainTree child && all items'
         end) items
  | FsFile | FsDirUnreadable | FsStatError => true
  end.

(** The pieces joined by slashes. *)
Fixpoint slashJoin (pieces : list string) : string :=
  match pieces with
  | [] => EmptyString
  | [p] => p
  | p :: rest => p +:+ "/" +:+ slashJoin rest
  end.

(** The absolute path with the given segments; the root for none. *)
Definition absPath (segs : list string) : string := "/" +:+ slashJoin segs.

(** A run whose working directory is a normalized absolute path and
    whose trees have plain entry names. *)
Definition plainWorld (w : world) (segs : list string) : Prop :=
  cwd w = absPath segs
  /\ Forall (fun s => plainName s = true) segs
  /\ (forall n, srcTree w = Some n -> plainTree n = true)
  /\ (forall n, publicTree w = Some n -> plainTree n = true).

(** A name that [getAllFiles] can pass through: plain and not ignored. *)
Definition visibleName (s : string) : Prop :=
  plainName s = true /\ has s ignoredPaths = false.

(** * Sanity checks of the embedding on concrete inputs *)

Module PathExamples.
Import Js Path.

Example basename_file : basename "/foo/bar/baz/asdf/quux.html" = "quux.html".
Proof. reflexivity. Qed.
Example basename_strip :
  basename_suffix "/foo/bar/baz/asdf/quux.html" ".html" = "quux".
Proof. reflexivity. Qed.
Example basename_trailing : basename "/foo/bar//" = "bar".
Proof. reflexivity. Qed.
Example basename_only_suffix : basename_suffix "/a/.ts" ".ts" = ".ts".
Proof. reflexivity. Qed.
Example dirname_file : dirname "/foo/bar/baz/asdf/quux" = "/foo/bar/baz/asdf".
Proof. reflexivity. Qed.
Example dirname_top : dirname "/a" = "/" /\ dirname "a" = "." /\ dirname "a/b" = "a".
Proof. repeat split. Qed.
Example extname_md : extname "index.coffee.md" = ".md".
Proof. reflexivity. Qed.
Example extname_misc :
  extname "index." = "." /\ extname "index" = EmptyString /\ extname ".index" = EmptyString
  /\ extname ".index.md" = ".md" /\ extname "a/.." = EmptyString /\ extname "..." = "."
  /\ extname "..a" = ".a" /\ extname "/x.d/file" = EmptyString.
Proof. repeat split. Qed.
Example join_plain : join "/home/u/proj" "src" = "/home/u/proj/src".
Proof. reflexivity. Qed.
Example join_root : join "/" "src" = "/src".
Proof. reflexivity. Qed.
Example join_dots : join "/a/b" "../c/./d/" = "/a/c/d/".
Proof. reflexivity. Qed.
Example normalize_rel : normalize "../../a/../b" = "../../b" /\ normalize "a/.." = ".".
Proof. repeat split. Qed.
Example split_api : split "/api/" "/r/src/app/api/users/route.ts" = ["/r/src/app"; "users/route.ts"].
Proof. reflexivity. Qed.
Example includes_ex : includes "Button" "import { Button } from 'x'" = true
  /\ includes "Buttons" "a Button" = false /\ includes EmptyString EmptyString = true.
Proof. repeat split. Qed.
Example endsWith_ex : endsWith ".m4s" "seg.m4s" = true /\ endsWith ".m4s" "m4s" = false.
Proof. repeat split. Qed.
Example lower_ex : toLowerCase ".PnG" = ".png".
Proof. reflexivity. Qed.
End PathExamples.

Module RegexExamples.
Import Js Regex.

Example api3_two :
  match_all barePattern "get('/api/users/1') and /api/x.y" = Some ["/api/users/1"; "/api/x"].
Proof. reflexivity. Qed.
Example api3_none : match_all barePattern "/api/ /api" = None.
Proof. reflexivity. Qed.
Example backtrack :
  whole <$> matches (seq [lit "a"; Plus dot; lit "b"]) "xaabbab-aab" = ["aabbab-aab"].
Proof. reflexivity. Qed.
Example strip_ts :
  remove_first (seq [lit "."; Chr (any_of ["j"; "t"]%char); lit "s"; Eol]) "users/route.ts"
  = "users/route".
Proof. reflexivity. Qed.
Example anchors :
  test (seq [Bol; Chr upper; Star dot; lit "."; Alt (lit "tsx") (lit "jsx"); Eol]) "Button.tsx" = true
  /\ test (seq [Bol; Chr upper; Star dot; lit "."; Alt (lit "tsx") (lit "jsx"); Eol]) "aButton.tsx" = false
  /\ test (seq [Bol; Chr upper; Star dot; lit "."; Alt (lit "tsx") (lit "jsx"); Eol]) "Button.tsx.bak" = false.
Proof. repeat split. Qed.
End RegexExamples.

Module ClassifierExamples.
Example critical_names :
  isNextJsSystemFile "/r/src/app/layout.tsx" = true
  /\ isNextJsSystemFile "/r/src/pages/api/users.ts" = true
  /\ isNextJsSystemFile "/r/src/app/page.mdx" = true
  /\ isNextJsSystemFile "/r/src/app/blog/page.mdx" = false
  /\ isNextJsSystemFile "/r/src/components/Button.tsx" = false.
Proof. repeat split. Qed.
Example types :
  getFileType "/r/src/components/Button.tsx" = component
  /\ getFileType "/r/src/hooks/useModal.tsx" = hook
  /\ getFileType "/r/src/ctx/ThemeProvider.tsx" = component
  /\ getFileType "/r/src/ctx/themeContext.ts" = context_
  /\ getFileType "/r/src/global.d.ts" = type_
  /\ getFileType "/r/src/a.SCSS" = util
  /\ getFileType "/r/src/a.scss" = style
  /\ getFileType "/r/public/Logo.PNG" = media
  /\ getFileType "/r/src/app/blog/page.tsx" = page
  /\ getFileType "/r/src/orphan.ts" = util.
Proof. repeat split. Qed.
Example api_rule :
  apiPathOf "/r/src/app/api/users/route.ts" = Some "users/route"
  /\ apiRuleHits "/r/src/app/api/users/route.ts" "fetch('/api/users/route')" = true
  /\ apiRuleHits "/r/src/app/api/users/route.ts" "fetch('/api/users')" = false.
Proof. repeat split. Qed.
End ClassifierExamples.

Module RunExamples.
(** [Button.tsx] is named in [App.tsx]; [App.tsx] and [orphan.ts] are
    named nowhere; [app/page.tsx] is critical; [logo.png] is not named
    in full anywhere; [robots.txt] is skipped. *)
Example demo_report :
  findUnusedFiles demoWorld
  = mkReport
      [ mkUnusedFile "/r/src/App.tsx" 10 component None;
        mkUnusedFile "/r/src/orphan.ts" 10 util None;
        mkUnusedFile "/r/public/logo.png" 10 media None ]
      30 [].
Proof. vm_compute. reflexivity. Qed.
Example demo_sources :
  sourceFiles demoWorld
  = ["/r/src/Button.tsx"; "/r/src/App.tsx"; "/r/src/orphan.ts"; "/r/src/app/page.tsx"].
Proof. vm_compute. reflexivity. Qed.
Example imports_ex :
  findImports "import { Button } from './Button'; import x from 'react'; require('../a/b.ts')"
  = {[ "./Button"; "../a/b.ts"; "../a/b" ]}.
Proof. vm_compute. reflexivity. Qed.
End RunExamples.

(** * Properties of the usage resolver *)

Section Resolver.
Implicit Types (file : string) (m : ImportMap).

Lemma scanEntries_verdict file m :
  (scanEntries file m).1 = existsb (recordHits file) m.
Proof.
  induction m as [|[k v] m IH]; [reflexivity|].
  cbn [scanEntries existsb]. unfold recordHits at 1. cbn [fst snd].
  destruct (String.eqb k file); cbn [negb andb orb]; [exact IH|].
  destruct (entryHits file v); cbn [orb fst]; [reflexivity | exact IH].
Qed.

Lemma isFileUsed_existsb file m :
  isFileUsed file m = isNextJsSystemFile file || existsb (recordHits file) m.
Proof.
  unfold isFileUsed, isFileUsed_run.
  destruct (isNextJsSystemFile file); [reflexivity|].
  apply scanEntries_verdict.
Qed.

Lemma existsb_elem_of {A} (f : A -> bool) (l : list A) :
  existsb f l = true <-> exists x, x ∈ l /\ f x = true.
Proof.
  rewrite existsb_exists. split; intros (x & Hx & Hf); exists x; split; auto;
    by apply list_elem_of_In.
Qed.

Lemma existsb_same_elements {A} (f : A -> bool) (l1 l2 : list A) :
  (forall x, x ∈ l1 <-> x ∈ l2) -> existsb f l1 = existsb f l2.
Proof.
  intros Hl. apply eq_true_iff_eq. rewrite !existsb_elem_of.
  split; intros (x & Hx & Hf); exists x; split; auto; by apply Hl.
Qed.

Lemma critical_rule_decides filePath :
  criticalRule filePath -> isNextJsSystemFile filePath = true.
Proof.
  unfold criticalRule, isNextJsSystemFile, has.
  intros [Hname | [Hapi | [Hdir Hpage]]].
  - by rewrite bool_decide_eq_true_2.
  - rewrite Hapi. by case_bool_decide.
  - rewrite Hdir, Hpage. cbn. by repeat case_match.
Qed.

Lemma String_eqb_false (a b : string) : a <> b -> String.eqb a b = false.
Proof. intros H. by apply String.eqb_neq. Qed.

End Resolver.

(** C1.  A path that satisfies one of the critical-file rules (reserved
    base name, an [/api/] segment, or a [page.] name directly under [app])
    is used whatever the index holds, the empty index included, and
    [isFileUsed] inspects no record of the index to say so. *)
Theorem critical_file_always_used (file : string) (importMap : ImportMap) :
  criticalRule file ->
  isFileUsed file importMap = true /\ isFileUsed_scanned file importMap = [].
Proof.
  intros Hc. unfold isFileUsed, isFileUsed_scanned, isFileUsed_run.
  by rewrite (critical_rule_decides _ Hc).
Qed.

Lemma critical_file_always_used_witness :
  (isFileUsed "/r/src/app/api/users/route.js" [] = true
   /\ isFileUsed_scanned "/r/src/app/api/users/route.js" [] = [])
  /\ (isFileUsed "/r/src/app/page.mdx"
        [("/r/src/a.ts", textRecord "/r/src/a.ts" "nothing")] = true
      /\ isFileUsed_scanned "/r/src/app/page.mdx"
           [("/r/src/a.ts", textRecord "/r/src/a.ts" "nothing")] = []).
Proof.
  split.
  - apply critical_file_always_used. right; left. vm_compute. reflexivity.
  - apply critical_file_always_used. right; right. split; vm_compute; reflexivity.
Defined.

(** C2.  (1) If a record [B] of the index, other than [A]'s own, has a
    content that contains [A]'s base name without its extension, then
    [isFileUsed A] is [true]; [A] itself need not be indexed.  (2) If [A]
    is not critical and every record other than [A]'s own contains neither
    that name, nor a match of the API rule, nor (when [A] has a media
    extension) [A]'s full base name, then [isFileUsed A] is [false]. *)
Theorem substring_rule_decides_usage :
  (forall (A B : string) (infoB : ImportInfo) (importMap : ImportMap),
      A <> B ->
      (B, infoB) ∈ importMap ->
      includes (basename_suffix A (extname A)) (content infoB) = true ->
      isFileUsed A importMap = true)
  /\
  (forall (A : string) (importMap : ImportMap),
      isNextJsSystemFile A = false ->
      (forall (B : string) (infoB : ImportInfo),
          (B, infoB) ∈ importMap -> B <> A ->
          includes (basename_suffix A (extname A)) (content infoB) = false
          /\ apiRuleHits A (content infoB) = false
          /\ (has (toLowerCase (extname A)) mediaExtensions = true ->
              includes (basename A) (content infoB) = false)) ->
      isFileUsed A importMap = false).
Proof.
  split.
  - intros A B infoB m Hne Hin Hinc.
    rewrite isFileUsed_existsb. apply orb_true_iff. right.
    apply existsb_elem_of. exists (B, infoB). split; [exact Hin|].
    unfold recordHits, entryHits. cbn [fst snd].
    rewrite String_eqb_false by congruence. by rewrite Hinc.
  - intros A m Hsys Hno.
    rewrite isFileUsed_existsb, Hsys. cbn [orb].
    apply not_true_is_false. rewrite existsb_elem_of.
    intros ([B infoB] & Hin & Hhit).
    unfold recordHits in Hhit. cbn [fst snd] in Hhit.
    apply andb_true_iff in Hhit as [Hne Hhit].
    apply negb_true_iff, String.eqb_neq in Hne.
    destruct (Hno B infoB Hin Hne) as (Ha & Hb & Hc).
    unfold entryHits in Hhit. rewrite Ha, Hb, andb_false_r in Hhit.
    destruct (has (toLowerCase (extname A)) mediaExtensions); [|done].
    by rewrite Hc in Hhit.
Qed.

Lemma substring_rule_decides_usage_witness :
  isFileUsed "/r/src/Button.tsx"
    [("/r/src/Button.tsx", textRecord "/r/src/Button.tsx" "export {}");
     ("/r/src/App.tsx", textRecord "/r/src/App.tsx" "<Button/>")] = true
  /\ isFileUsed "/r/public/hero.png"
       [("/r/src/App.tsx", textRecord "/r/src/App.tsx" "<Button/>")] = false.
Proof.
  split.
  - apply (proj1 substring_rule_decides_usage "/r/src/Button.tsx" "/r/src/App.tsx"
             (textRecord "/r/src/App.tsx" "<Button/>")).
    + discriminate.
    + apply list_elem_of_In. right. left. reflexivity.
    + vm_compute. reflexivity.
  - apply (proj2 substring_rule_decides_usage).
    + vm_compute. reflexivity.
    + intros B infoB Hin _.
      apply list_elem_of_In in Hin. destruct Hin as [Heq | []].
      injection Heq as <- <-.
      split; [|split]; [| | intros _]; vm_compute; reflexivity.
Defined.

(** ** The index built by the first loop *)

Section Index.
Context (read : string -> option string).

Lemma map_set_elem (k : string) (v : ImportInfo) (m : ImportMap) :
  (forall v', (k, v') ∈ m -> v' = v) ->
  forall e, e ∈ map_set k v m <-> e ∈ m \/ e = (k, v).
Proof.
  induction m as [|[k' v'] m IH]; intros Hfun e; cbn [map_set].
  - rewrite list_elem_of_singleton. split; [by right|].
    intros [H | H]; [by inversion H | exact H].
  - destruct (String.eqb k' k) eqn:Hk.
    + apply String.eqb_eq in Hk as ->.
      rewrite (Hfun v') by left. split; [by left|].
      intros [H | ->]; [exact H | by left].
    + rewrite !elem_of_cons, IH; [tauto|].
      intros v'' Hin. apply Hfun. by right.
Qed.

Lemma wellFormed_functional (m : ImportMap) (k : string) (v : ImportInfo) (text : string) :
  wellFormed read m -> read k = Some text -> (k, v) ∈ m -> v = recordOf k text.
Proof.
  intros Hwf Hread Hin. destruct (Hwf k v Hin) as (text' & Hread' & ->).
  congruence.
Qed.

Lemma buildImportMap_elem (files : list string) (acc : ImportMap * list string) :
  wellFormed read acc.1 ->
  forall e,
    e ∈ (buildImportMap read files acc).1
    <-> e ∈ acc.1
        \/ exists f text, f ∈ files /\ read f = Some text /\ e = (f, recordOf f text).
Proof.
  revert acc. induction files as [|f files IH]; intros acc Hwf e; cbn [buildImportMap].
  - split; [by left|]. intros [H | (f & text & Hf & _)]; [done|]. by inversion Hf.
  - destruct (read f) as [text|] eqn:Hread.
    + fold (recordOf f text).
      assert (Hset : forall e', e' ∈ map_set f (recordOf f text) acc.1
                                <-> e' ∈ acc.1 \/ e' = (f, recordOf f text)).
      { apply map_set_elem. intros v' Hin. by eapply wellFormed_functional. }
      rewrite IH; cbn [fst snd].
      * rewrite Hset. split.
        -- intros [[H | ->] | (g & t & Hg & Hr & ->)]; [by left | right | right].
           ++ exists f, text. by rewrite elem_of_cons; auto.
           ++ exists g, t. by rewrite elem_of_cons; auto.
        -- intros [H | (g & t & Hg & Hr & ->)]; [by left; left|].
           apply elem_of_cons in Hg as [-> | Hg].
           ++ left; right. congruence.
           ++ right. by exists g, t.
      * intros k v Hin. apply Hset in Hin as [Hin | [= -> ->]]; [by apply Hwf|].
        by exists text.
    + rewrite IH by exact Hwf. cbn [fst snd]. split.
      * intros [H | (g & t & Hg & Hr & ->)]; [by left | right].
        exists g, t. by rewrite elem_of_cons; auto.
      * intros [H | (g & t & Hg & Hr & ->)]; [by left | right].
        apply elem_of_cons in Hg as [-> | Hg]; [congruence|]. by exists g, t.
Qed.

Lemma wellFormed_nil : wellFormed read [].
Proof. intros k v Hin. by inversion Hin. Qed.

(** The index built from scratch holds exactly the records of the files
    that could be read. *)
Lemma buildImportMap_records (files : list string) (e : string * ImportInfo) :
  e ∈ (buildImportMap read files ([], [])).1
  <-> exists f text, f ∈ files /\ read f = Some text /\ e = (f, recordOf f text).
Proof.
  rewrite buildImportMap_elem by apply wellFormed_nil. cbn [fst].
  split; [intros [H | H]; [by inversion H | exact H] | by right].
Qed.

Lemma buildImportMap_keys (files : list string) (f : string) :
  f ∈ (buildImportMap read files ([], [])).1.*1
  <-> f ∈ files /\ is_Some (read f).
Proof.
  rewrite list_elem_of_fmap. split.
  - intros ([k v] & -> & Hin).
    apply buildImportMap_records in Hin as (g & text & Hg & Hr & Heq).
    injection Heq as -> _. cbn [fst]. split; [exact Hg | by exists text].
  - intros [Hf [text Hr]]. exists (f, recordOf f text). split; [done|].
    apply buildImportMap_records. by exists f, text.
Qed.

End Index.

(** C6.  The verdict of [isFileUsed] does not depend on the order of the
    index: two indexes that are permutations of each other give every
    file the same verdict, and so do the indexes that the first loop of
    [findUnusedFiles] builds from two permutations of the file list. *)
Theorem verdict_order_independent :
  (forall (file : string) (m1 m2 : ImportMap),
      m1 ≡ₚ m2 -> isFileUsed file m1 = isFileUsed file m2)
  /\
  (forall (read : string -> option string) (files1 files2 : list string)
          (file : string),
      files1 ≡ₚ files2 ->
      isFileUsed file (buildImportMap read files1 ([], [])).1
      = isFileUsed file (buildImportMap read files2 ([], [])).1).
Proof.
  split.
  - intros file m1 m2 Hperm. rewrite !isFileUsed_existsb. f_equal.
    apply existsb_same_elements. intros e. by rewrite Hperm.
  - intros read files1 files2 file Hperm. rewrite !isFileUsed_existsb. f_equal.
    apply existsb_same_elements. intros e. rewrite !buildImportMap_records.
    by setoid_rewrite Hperm.
Qed.

Lemma verdict_order_independent_witness :
  isFileUsed "/r/src/Button.tsx"
    [("/r/src/App.tsx", textRecord "/r/src/App.tsx" "<Button/>");
     ("/r/src/b.ts", textRecord "/r/src/b.ts" "export {}")]
  = isFileUsed "/r/src/Button.tsx"
      [("/r/src/b.ts", textRecord "/r/src/b.ts" "export {}");
       ("/r/src/App.tsx", textRecord "/r/src/App.tsx" "<Button/>")]
  /\ isFileUsed "/r/src/b.ts"
       (buildImportMap (readFileSync demoWorld) ["/r/src/App.tsx"; "/r/src/b.ts"] ([], [])).1
     = isFileUsed "/r/src/b.ts"
         (buildImportMap (readFileSync demoWorld) ["/r/src/b.ts"; "/r/src/App.tsx"] ([], [])).1.
Proof.
  split.
  - apply (proj1 verdict_order_independent). apply perm_swap.
  - apply (proj2 verdict_order_independent). apply perm_swap.
Defined.

(** ** The API branch and the import sets *)

Lemma api_path_is_critical (file : string) :
  includes "/api/" file = true -> isNextJsSystemFile file = true.
Proof.
  intros Hapi. unfold isNextJsSystemFile. rewrite Hapi. by case_match.
Qed.

Lemma entryHits_without_api (file : string) (info : ImportInfo) :
  includes "/api/" file = false -> entryHits file info = entryHits_noApi file info.
Proof.
  intros Hapi. unfold entryHits, entryHits_noApi. by rewrite Hapi.
Qed.

Lemma scanEntries_without_api (file : string) (m : ImportMap) :
  includes "/api/" file = false -> scanEntries file m = scanEntries_noApi file m.
Proof.
  intros Hapi. induction m as [|[k v] m IH]; [reflexivity|].
  cbn [scanEntries scanEntries_noApi].
  by rewrite IH, (entryHits_without_api _ _ Hapi).
Qed.

(** C9.  A path with an [/api/] segment is answered by the critical-file
    check before the loop starts, so the API branch of the loop is never
    taken: [isFileUsed] and the function obtained from it by deleting that
    branch return the same verdict, and inspect the same records, for
    every file and every index. *)
Theorem api_branch_is_dead :
  (forall file : string,
      includes "/api/" file = true -> isNextJsSystemFile file = true)
  /\
  (forall (file : string) (importMap : ImportMap),
      isFileUsed file importMap = isFileUsed_noApi file importMap
      /\ isFileUsed_run file importMap = isFileUsed_noApi_run file importMap).
Proof.
  split; [exact api_path_is_critical|].
  intros file m.
  assert (isFileUsed_run file m = isFileUsed_noApi_run file m) as Hrun.
  { unfold isFileUsed_run, isFileUsed_noApi_run.
    destruct (isNextJsSystemFile file) eqn:Hsys; [reflexivity|].
    apply scanEntries_without_api.
    destruct (includes "/api/" file) eqn:Hapi; [|reflexivity].
    by rewrite api_path_is_critical in Hsys. }
  split; [|exact Hrun]. unfold isFileUsed, isFileUsed_noApi. by rewrite Hrun.
Qed.

Lemma api_branch_is_dead_witness :
  isNextJsSystemFile "/r/src/pages/api/users.ts" = true
  /\ isFileUsed "/r/src/lib/api.ts"
       [("/r/src/a.ts", textRecord "/r/src/a.ts" "fetch('/api/users')")]
     = isFileUsed_noApi "/r/src/lib/api.ts"
         [("/r/src/a.ts", textRecord "/r/src/a.ts" "fetch('/api/users')")].
Proof.
  split.
  - apply (proj1 api_branch_is_dead). vm_compute. reflexivity.
  - apply (proj2 api_branch_is_dead).
Defined.

Lemma entryHits_content (file : string) (i1 i2 : ImportInfo) :
  content i1 = content i2 -> entryHits file i1 = entryHits file i2.
Proof. intros H. unfold entryHits. by rewrite H. Qed.

Lemma scanEntries_rawView (file : string) (m1 m2 : ImportMap) :
  rawView m1 = rawView m2 -> scanEntries file m1 = scanEntries file m2.
Proof.
  revert m2. induction m1 as [|[k1 v1] m1 IH]; intros [|[k2 v2] m2] Hview;
    try discriminate; [reflexivity|].
  unfold rawView in Hview. cbn in Hview. injection Hview as -> Hc Hrest.
  cbn [scanEntries]. rewrite (IH m2 Hrest), (entryHits_content file v1 v2 Hc).
  reflexivity.
Qed.

(** C10.  Two indexes whose records agree on keys and contents, whatever
    their [imports] (and [exports]) sets are, give every file the same
    verdict, reached by inspecting the same records: [isFileUsed] reads
    the raw content only. *)
Theorem verdict_ignores_import_sets (file : string) (m1 m2 : ImportMap) :
  rawView m1 = rawView m2 ->
  isFileUsed file m1 = isFileUsed file m2
  /\ isFileUsed_scanned file m1 = isFileUsed_scanned file m2.
Proof.
  intros Hview.
  assert (isFileUsed_run file m1 = isFileUsed_run file m2) as Hrun.
  { unfold isFileUsed_run. by rewrite (scanEntries_rawView file m1 m2 Hview). }
  unfold isFileUsed, isFileUsed_scanned. by rewrite Hrun.
Qed.

Lemma verdict_ignores_import_sets_witness :
  isFileUsed "/r/src/Button.tsx"
    [("/r/src/App.tsx", recordOf "/r/src/App.tsx" "import B from './Button'")]
  = isFileUsed "/r/src/Button.tsx"
      [("/r/src/App.tsx",
        mkImportInfo {[ "./elsewhere" ]} {[ "x" ]} "import B from './Button'" "?")]
  /\ isFileUsed_scanned "/r/src/Button.tsx"
       [("/r/src/App.tsx", recordOf "/r/src/App.tsx" "import B from './Button'")]
     = isFileUsed_scanned "/r/src/Button.tsx"
         [("/r/src/App.tsx",
           mkImportInfo {[ "./elsewhere" ]} {[ "x" ]} "import B from './Button'" "?")].
Proof.
  apply verdict_ignores_import_sets. reflexivity.
Defined.

(** * Properties of the classifier *)

Lemma chars_str (l : list ascii) : chars (str l) = l.
Proof. apply String.list_ascii_of_string_of_list_ascii. Qed.

(** The last component of a path is determined by its base name. *)
Lemma last_component_of_basename (path name : string) :
  basename path = name -> last_component_rev path = rev (chars name).
Proof.
  unfold basename. intros <-. by rewrite chars_str, rev_involutive.
Qed.

Lemma extname_of_basename (path name : string) :
  basename path = name -> extname path = str (ext_of_rev (rev (chars name))).
Proof.
  intros H. unfold extname. by rewrite (last_component_of_basename _ _ H).
Qed.

Lemma getFileType_first_match (path : string) :
  firstMatch categoryRules path = Some (getFileType path).
Proof.
  unfold getFileType. cbn [firstMatch categoryRules].
  repeat (case_match; [reflexivity|]). reflexivity.
Qed.

(** C7.  [getFileType] gives every path the category of the first rule,
    in the order api, page, media, component, hook, context, type, style,
    util, that accepts it, hence exactly one category; the path
    [useModal.tsx], and every path with that base name and no [/api/]
    segment, is a hook and not a component. *)
Theorem classification_first_match_wins :
  (forall path : string,
      firstMatch categoryRules path = Some (getFileType path)
      /\ exists! c : FileType, getFileType path = c)
  /\ getFileType "useModal.tsx" = hook
  /\ (forall path : string,
         basename path = "useModal.tsx" ->
         getFileType path <> component
         /\ (includes "/api/" path = false -> getFileType path = hook)).
Proof.
  split; [|split].
  - intros path. split; [apply getFileType_first_match|].
    exists (getFileType path). split; [reflexivity | auto].
  - vm_compute. reflexivity.
  - intros path Hname.
    assert (includes "/api/" path = false -> getFileType path = hook) as Hhook.
    { intros Hapi. unfold getFileType.
      rewrite (extname_of_basename _ _ Hname), Hname, Hapi.
      destruct (includes "/app/" path); vm_compute; reflexivity. }
    split; [|exact Hhook].
    destruct (includes "/api/" path) eqn:Hapi.
    + unfold getFileType. rewrite Hapi. discriminate.
    + rewrite Hhook by reflexivity. discriminate.
Qed.

Lemma classification_first_match_wins_witness :
  getFileType "/r/src/hooks/useModal.tsx" <> component
  /\ getFileType "/r/src/hooks/useModal.tsx" = hook.
Proof.
  destruct (proj2 (proj2 classification_first_match_wins)
              "/r/src/hooks/useModal.tsx") as [Hne Hhook].
  - vm_compute. reflexivity.
  - split; [exact Hne|]. apply Hhook. vm_compute. reflexivity.
Defined.

(** * Properties of the run *)

Ltac decide_closed := apply (bool_decide_unpack _); vm_compute; exact I.

Section Report.
Context (stat : string -> option N) (m : ImportMap).

Lemma pushUnused_unused (file : string) (ty : FileType) (r : report) :
  unusedFiles (pushUnused stat file ty r)
  = unusedFiles r
    ++ option_list ((fun size => mkUnusedFile file size ty None) <$> stat file).
Proof.
  unfold pushUnused. destruct (stat file); cbn; [reflexivity|].
  by rewrite app_nil_r.
Qed.

Lemma omap_cons_app {A B} (g : A -> option B) (x : A) (l : list A) :
  omap g (x :: l) = option_list (g x) ++ omap g l.
Proof. cbn. by destruct (g x). Qed.

Lemma reportSourceFiles_unused (files : list string) (r : report) :
  unusedFiles (reportSourceFiles stat m files r)
  = unusedFiles r ++ omap (sourceEntry stat m) files.
Proof.
  revert r. induction files as [|f files IH]; intros r.
  - cbn. by rewrite app_nil_r.
  - cbn [reportSourceFiles]. rewrite IH, omap_cons_app, app_assoc. f_equal.
    unfold sourceEntry. destruct (isFileUsed f m); cbn [negb].
    + by rewrite app_nil_r.
    + apply pushUnused_unused.
Qed.

Lemma reportPublicFiles_unused (files : list string) (r : report) :
  unusedFiles (reportPublicFiles stat m files r)
  = unusedFiles r ++ omap (publicEntry stat m) files.
Proof.
  revert r. induction files as [|f files IH]; intros r.
  - cbn. by rewrite app_nil_r.
  - cbn [reportPublicFiles]. rewrite IH, omap_cons_app, app_assoc. f_equal.
    unfold publicEntry. destruct (alwaysUsedAsset (basename f)).
    + by rewrite app_nil_r.
    + destruct (assetIsUsed (basename f) m); cbn [negb].
      * by rewrite app_nil_r.
      * apply pushUnused_unused.
Qed.

End Report.

(** The report of a run, file by file. *)
Lemma findUnusedFiles_unused (w : world) :
  unusedFiles (findUnusedFiles w)
  = omap (sourceEntry (statSize w) (indexOf w)) (sourceFiles w)
    ++ omap (publicEntry (statSize w) (indexOf w)) (publicFiles w).
Proof.
  unfold findUnusedFiles. cbv zeta.
  rewrite reportPublicFiles_unused, reportSourceFiles_unused. reflexivity.
Qed.

Lemma reported_cases (w : world) (u : UnusedFile) :
  u ∈ unusedFiles (findUnusedFiles w)
  <-> (exists f, f ∈ sourceFiles w /\ sourceEntry (statSize w) (indexOf w) f = Some u)
      \/ (exists f, f ∈ publicFiles w /\ publicEntry (statSize w) (indexOf w) f = Some u).
Proof.
  rewrite findUnusedFiles_unused, elem_of_app, !list_elem_of_omap. reflexivity.
Qed.

Lemma sourceEntry_Some (stat : string -> option N) (m : ImportMap)
    (f : string) (u : UnusedFile) :
  sourceEntry stat m f = Some u
  <-> isFileUsed f m = false
      /\ exists size, stat f = Some size /\ u = mkUnusedFile f size (getFileType f) None.
Proof.
  unfold sourceEntry. destruct (isFileUsed f m).
  - split; [discriminate | intros [? _]; discriminate].
  - destruct (stat f) as [size|]; cbn.
    + split.
      * intros [= <-]. split; [reflexivity|]. by exists size.
      * intros [_ (size' & [= <-] & ->)]. reflexivity.
    + split; [discriminate | intros [_ (size' & ? & _)]; discriminate].
Qed.

Lemma publicEntry_Some (stat : string -> option N) (m : ImportMap)
    (f : string) (u : UnusedFile) :
  publicEntry stat m f = Some u
  <-> alwaysUsedAsset (basename f) = false
      /\ assetIsUsed (basename f) m = false
      /\ exists size, stat f = Some size /\ u = mkUnusedFile f size media None.
Proof.
  unfold publicEntry. destruct (alwaysUsedAsset (basename f)).
  - split; [discriminate | intros [? _]; discriminate].
  - destruct (assetIsUsed (basename f) m).
    + split; [discriminate | intros (_ & ? & _); discriminate].
    + destruct (stat f) as [size|]; cbn.
      * split.
        -- intros [= <-]. do 2 (split; [reflexivity|]). by exists size.
        -- intros (_ & _ & size' & [= <-] & ->). reflexivity.
      * split; [discriminate | intros (_ & _ & size' & ? & _); discriminate].
Qed.

Lemma reported_path_stat (w : world) (u : UnusedFile) :
  u ∈ unusedFiles (findUnusedFiles w) -> statSize w (uf_path u) = Some (uf_size u).
Proof.
  intros [(f & _ & Hf) | (f & _ & Hf)]%reported_cases.
  - apply sourceEntry_Some in Hf as (_ & size & Hstat & ->). exact Hstat.
  - apply publicEntry_Some in Hf as (_ & _ & size & Hstat & ->). exact Hstat.
Qed.

(** C3, as the code has it.  A source file whose read fails is left out of
    the index, a file whose [statSync] fails is left out of the report,
    and neither failure stops the run: every source file that can be read
    is indexed, and every source file that [isFileUsed] rejects and whose
    [statSync] succeeds is reported, whether or not it is in the index. *)
Theorem failures_skip_one_file (w : world) :
  (forall f : string, readFileSync w f = None -> f ∉ (indexOf w).*1)
  /\ (forall f : string,
         statSize w f = None -> f ∉ reportedPaths (findUnusedFiles w))
  /\ (forall f text : string,
         f ∈ sourceFiles w -> readFileSync w f = Some text ->
         (f, recordOf f text) ∈ indexOf w)
  /\ (forall (f : string) (size : N),
         f ∈ sourceFiles w ->
         isFileUsed f (indexOf w) = false ->
         statSize w f = Some size ->
         mkUnusedFile f size (getFileType f) None ∈ unusedFiles (findUnusedFiles w)).
Proof.
  repeat split.
  - intros f Hread [_ [text Hin]]%buildImportMap_keys. congruence.
  - intros f Hstat (u & -> & Hu)%list_elem_of_fmap.
    apply reported_path_stat in Hu. congruence.
  - intros f text Hf Hread. apply buildImportMap_records. by exists f, text.
  - intros f size Hf Hused Hstat. apply reported_cases. left.
    exists f. split; [exact Hf|]. apply sourceEntry_Some.
    split; [exact Hused|]. by exists size.
Qed.

Lemma failures_skip_one_file_witness :
  ("/r/src/orphan.ts" ∉ (indexOf unreadableWorld).*1)
  /\ (("/r/src/main.ts", recordOf "/r/src/main.ts" "export {}") ∈ indexOf unreadableWorld)
  /\ (mkUnusedFile "/r/src/main.ts" 10 util None
      ∈ unusedFiles (findUnusedFiles unreadableWorld)).
Proof.
  destruct (failures_skip_one_file unreadableWorld) as (Hidx & _ & Hread & Hrep).
  split; [|split].
  - apply Hidx. vm_compute. reflexivity.
  - apply Hread; [decide_closed | vm_compute; reflexivity].
  - apply (Hrep "/r/src/main.ts" 10%N);
      [decide_closed | vm_compute; reflexivity | vm_compute; reflexivity].
Defined.

(** C3, as stated, fails: in [unreadableWorld] the read of the source
    file [orphan.ts] throws and the file is absent from the index, yet the
    run reports it as unused; the public file [logo.png], which is never
    indexed, is reported as well. *)
Lemma unread_file_is_reported :
  ("/r/src/orphan.ts" ∈ sourceFiles unreadableWorld)
  /\ readFileSync unreadableWorld "/r/src/orphan.ts" = None
  /\ ("/r/src/orphan.ts" ∉ (indexOf unreadableWorld).*1)
  /\ ("/r/src/orphan.ts" ∈ reportedPaths (findUnusedFiles unreadableWorld))
  /\ ("/r/public/logo.png" ∉ (indexOf unreadableWorld).*1)
  /\ ("/r/public/logo.png" ∈ reportedPaths (findUnusedFiles unreadableWorld)).
Proof.
  split; [decide_closed|]. split; [vm_compute; reflexivity|].
  repeat split; decide_closed.
Qed.

(** ** Public assets *)

Lemma assetIsUsed_spec (name : string) (m : ImportMap) :
  assetIsUsed name m = true
  <-> exists k info, (k, info) ∈ m /\ includes name (content info) = true.
Proof.
  induction m as [|[k v] m IH]; cbn [assetIsUsed].
  - split; [discriminate|]. intros (k & info & Hin & _). by inversion Hin.
  - destruct (includes name (content v)) eqn:Hinc.
    + split; [|reflexivity]. intros _. exists k, v. split; [by left | exact Hinc].
    + rewrite IH. split.
      * intros (k' & info & Hin & H). exists k', info. split; [by right | exact H].
      * intros (k' & info & Hin & H).
        apply elem_of_cons in Hin as [[= -> ->] | Hin]; [congruence|].
        by exists k', info.
Qed.

Lemma media_not_code (ext : string) :
  has ext mediaExtensions = true -> has ext codeExtensions = true -> False.
Proof.
  unfold has. intros Hm%bool_decide_eq_true_1 Hc%bool_decide_eq_true_1.
  assert (ext ∈ mediaExtensions ∩ codeExtensions) as Hboth by by apply elem_of_intersection.
  replace (mediaExtensions ∩ codeExtensions) with (∅ : gset string) in Hboth
    by (vm_compute; reflexivity).
  by apply not_elem_of_empty in Hboth.
Qed.

Lemma sourceFiles_code (w : world) (f : string) :
  f ∈ sourceFiles w -> has (toLowerCase (extname f)) codeExtensions = true.
Proof.
  unfold sourceFiles, sourceFilesOf. by intros [H _]%list_elem_of_filter.
Qed.

Lemma getFileType_media (f : string) :
  getFileType f = media -> has (toLowerCase (extname f)) mediaExtensions = true.
Proof.
  unfold getFileType. repeat (case_match; try discriminate). reflexivity.
Qed.

(** C4, as the code has it.  For a public file that is not on the
    always-used list, the third loop's usage check holds exactly when some
    record of the index has a content that contains the file's full base
    name, extension included; and the file is reported (when [statSync]
    succeeds) exactly when that check fails. *)
Theorem public_asset_full_name_rule (w : world) (file : string) (size : N) :
  file ∈ publicFiles w ->
  alwaysUsedAsset (basename file) = false ->
  statSize w file = Some size ->
  (assetIsUsed (basename file) (indexOf w) = true
   <-> exists k info, (k, info) ∈ indexOf w
                      /\ includes (basename file) (content info) = true)
  /\ (mkUnusedFile file size media None ∈ unusedFiles (findUnusedFiles w)
      <-> assetIsUsed (basename file) (indexOf w) = false).
Proof.
  intros Hpub Hlist Hstat. split; [apply assetIsUsed_spec|].
  rewrite reported_cases. split.
  - intros [(f & Hf & Hentry) | (f & Hf & Hentry)].
    + apply sourceEntry_Some in Hentry as (_ & size' & _ & Heq).
      injection Heq as <- _ Hty. exfalso.
      eapply media_not_code;
        [apply getFileType_media; symmetry; exact Hty | by eapply sourceFiles_code].
    + apply publicEntry_Some in Hentry as (_ & Hunused & size' & _ & Heq).
      by injection Heq as <- _.
  - intros Hunused. right. exists file. split; [exact Hpub|].
    apply publicEntry_Some. do 2 (split; [assumption|]). by exists size.
Qed.

Lemma public_asset_full_name_rule_witness :
  (assetIsUsed (basename "/r/public/logo.png") (indexOf demoWorld) = true
   <-> exists k info, (k, info) ∈ indexOf demoWorld
                      /\ includes (basename "/r/public/logo.png") (content info) = true)
  /\ (mkUnusedFile "/r/public/logo.png" 10 media None
        ∈ unusedFiles (findUnusedFiles demoWorld)
      <-> assetIsUsed (basename "/r/public/logo.png") (indexOf demoWorld) = false).
Proof.
  apply public_asset_full_name_rule;
    [decide_closed | vm_compute; reflexivity | vm_compute; reflexivity].
Defined.

(** C4, as stated, fails: in [demoWorld] the text of [App.tsx] contains
    [logo], the base name of the public file [logo.png] without its
    extension, and the file is not on the always-used list; yet the usage
    check fails and the file is reported, because [logo.png] occurs
    nowhere. *)
Lemma stripped_name_does_not_count :
  alwaysUsedAsset (basename "/r/public/logo.png") = false
  /\ (exists k info,
         (k, info) ∈ indexOf demoWorld
         /\ includes (basename_suffix "/r/public/logo.png" (extname "/r/public/logo.png"))
              (content info) = true)
  /\ assetIsUsed (basename "/r/public/logo.png") (indexOf demoWorld) = false
  /\ ("/r/public/logo.png" ∈ reportedPaths (findUnusedFiles demoWorld)).
Proof.
  split; [vm_compute; reflexivity|]. split; [|split].
  - exists "/r/src/App.tsx",
      (recordOf "/r/src/App.tsx" "import { Button } from './Button'; // logo").
    split; [|vm_compute; reflexivity].
    apply (buildImportMap_records (readFileSync demoWorld)).
    exists "/r/src/App.tsx", "import { Button } from './Button'; // logo".
    split; [decide_closed|]. split; reflexivity.
  - vm_compute. reflexivity.
  - decide_closed.
Qed.

(** ** The always-used names *)

Lemma is_prefix_app (p l : list ascii) :
  is_prefix p l = true -> exists l', l = p ++ l'.
Proof.
  revert l. induction p as [|a p IH]; intros l H; [by exists l|].
  destruct l as [|b l]; [discriminate|]. cbn [is_prefix] in H.
  apply andb_true_iff in H as [->%Ascii.eqb_eq H].
  destruct (IH l H) as [l' ->]. by exists l'.
Qed.

(** A name that is [robots.txt] or [sitemap.xml], or that ends in [.m4s],
    has no code extension. *)
Lemma reserved_names_not_code (path : string) :
  basename path = "robots.txt" \/ basename path = "sitemap.xml"
  \/ endsWith ".m4s" (basename path) = true ->
  has (toLowerCase (extname path)) codeExtensions = false.
Proof.
  intros [Hn | [Hn | Hn]].
  - rewrite (extname_of_basename _ _ Hn). vm_compute. reflexivity.
  - rewrite (extname_of_basename _ _ Hn). vm_compute. reflexivity.
  - unfold endsWith, basename in Hn. rewrite chars_str, rev_involutive in Hn.
    unfold extname. apply is_prefix_app in Hn as [l ->].
    destruct l as [|e [|e' l]]; vm_compute; reflexivity.
Qed.

(** C5, as the code has it.  No reported file is named [robots.txt] or
    [sitemap.xml] or has a name ending in [.m4s], and a reported file
    whose name contains [segment_] is never a public asset judged by the
    third loop: it is a source file, reported by the second loop under the
    category [getFileType] gives it. *)
Theorem always_used_names_in_report (w : world) (u : UnusedFile) :
  u ∈ unusedFiles (findUnusedFiles w) ->
  basename (uf_path u) <> "robots.txt"
  /\ basename (uf_path u) <> "sitemap.xml"
  /\ endsWith ".m4s" (basename (uf_path u)) = false
  /\ (includes "segment_" (basename (uf_path u)) = true ->
      uf_path u ∈ sourceFiles w /\ uf_type u = getFileType (uf_path u)).
Proof.
  intros [(f & Hf & Hentry) | (f & Hf & Hentry)]%reported_cases.
  - apply sourceEntry_Some in Hentry as (_ & size & _ & ->). cbn [uf_path uf_type].
    pose proof (sourceFiles_code w f Hf) as Hcode.
    pose proof (reserved_names_not_code f) as Hres.
    repeat split; try assumption.
    + intros Hn. rewrite Hres in Hcode by auto. discriminate.
    + intros Hn. rewrite Hres in Hcode by auto. discriminate.
    + destruct (endsWith ".m4s" (basename f)) eqn:Hn; [|reflexivity].
      rewrite Hres in Hcode by auto. discriminate.
  - apply publicEntry_Some in Hentry as (Hlist & _ & size & _ & ->).
    cbn [uf_path uf_type]. unfold alwaysUsedAsset in Hlist.
    apply orb_false_iff in Hlist as [Hlist Hm4s].
    apply orb_false_iff in Hlist as [Hlist Hseg].
    apply orb_false_iff in Hlist as [Hrobots Hsitemap].
    repeat split.
    + by apply String.eqb_neq.
    + by apply String.eqb_neq.
    + exact Hm4s.
    + congruence.
    + congruence.
Qed.

Lemma always_used_names_in_report_witness :
  basename "/r/src/segment_utils.ts" <> "robots.txt"
  /\ basename "/r/src/segment_utils.ts" <> "sitemap.xml"
  /\ endsWith ".m4s" (basename "/r/src/segment_utils.ts") = false
  /\ (includes "segment_" (basename "/r/src/segment_utils.ts") = true ->
      "/r/src/segment_utils.ts" ∈ sourceFiles segmentWorld
      /\ util = getFileType "/r/src/segment_utils.ts").
Proof.
  apply (always_used_names_in_report segmentWorld
           (mkUnusedFile "/r/src/segment_utils.ts" 10 util None)).
  decide_closed.
Defined.

(** C5, as stated, fails: in [segmentWorld] the source file
    [segment_utils.ts] has a name that contains [segment_] and is
    reported as unused, while the public file [segment_001.ts] is not. *)
Lemma segment_source_file_is_reported :
  includes "segment_" (basename "/r/src/segment_utils.ts") = true
  /\ ("/r/src/segment_utils.ts" ∈ reportedPaths (findUnusedFiles segmentWorld))
  /\ ("/r/public/segment_001.ts" ∈ publicFiles segmentWorld)
  /\ ("/r/public/segment_001.ts" ∉ reportedPaths (findUnusedFiles segmentWorld)).
Proof.
  split; [vm_compute; reflexivity|]. repeat split; decide_closed.
Qed.

(** * Properties of the enumeration *)

(** An ignored entry is passed over whatever it is: the enumeration is
    the one of the directory without that entry. *)
Lemma walk_skips_ignored (dir item : string) (child : fsnode)
    (before after : list (string * fsnode)) :
  has item ignoredPaths = true ->
  walk dir (FsDir (before ++ (item, child) :: after))
  = walk dir (FsDir (before ++ after)).
Proof.
  intros Hign. induction before as [|[i c] before IH].
  - cbn. by rewrite Hign.
  - cbn in IH |- *. destruct (has i ignoredPaths); [exact IH|].
    destruct c; by rewrite ?IH.
Qed.

(** The name of a directory entry holds no slash, so only five members of
    [ignoredPaths] can ever be met by the test of [getAllFiles]. *)
Lemma ignored_entry_names (item : string) :
  has item ignoredPaths = true -> includes "/" item = false ->
  item ∈ prunableNames.
Proof.
  unfold has, ignoredPaths. intros Hin%bool_decide_eq_true_1 Hslash.
  rewrite !elem_of_union, !elem_of_singleton in Hin.
  destruct_or!; subst; first [decide_closed | by vm_compute in Hslash].
Qed.

(** C8 on a concrete tree.  [public/chunks] and [public/static] are
    members of [ignoredPaths], yet in the public tree [chunksTree] the
    directories [chunks] and [static] are traversed: their files are
    enumerated, and the run reports them as unused media.  Only
    [node_modules] is pruned. *)
Theorem generated_chunks_are_enumerated :
  has "public/chunks" ignoredPaths = true
  /\ has "public/static" ignoredPaths = true
  /\ getAllFiles (join "/r" "public") (Some chunksTree)
     = ["/r/public/chunks/main.js"; "/r/public/static/media/a.png";
        "/r/public/favicon.ico"]
  /\ reportedPaths (findUnusedFiles chunksWorld)
     = ["/r/public/chunks/main.js"; "/r/public/static/media/a.png";
        "/r/public/favicon.ico"].
Proof. repeat split; vm_compute; reflexivity. Qed.

(** * Further properties of the usage resolver *)

Section StringFacts.

Lemma str_app (a b : list ascii) : str (a ++ b) = str a +:+ str b.
Proof.
  induction a as [|x a IH]; [reflexivity|].
  change (String x (str (a ++ b)) = String x (str a +:+ str b)). by rewrite IH.
Qed.

Lemma length_chars (s : string) : length (chars s) = String.length s.
Proof. induction s as [|a s IH]; [reflexivity|]. cbn. by rewrite <- IH. Qed.

Lemma length_str (l : list ascii) : String.length (str l) = length l.
Proof. by rewrite <- length_chars, chars_str. Qed.

Lemma prefix_app_true (p q s : string) :
  String.prefix (p +:+ q) s = true -> String.prefix p s = true.
Proof.
  revert s. induction p as [|a p IH]; intros s H; [destruct s; reflexivity|].
  destruct s as [|b s]; [discriminate|].
  change (String a p +:+ q) with (String a (p +:+ q)) in H. cbn in H |- *.
  destruct (ascii_dec a b); [by apply IH | discriminate].
Qed.

Lemma includes_prefix_of_needle (p q s : string) :
  includes (p +:+ q) s = true -> includes p s = true.
Proof.
  induction s as [|b s IH]; cbn [includes]; intros H.
  - by apply prefix_app_true in H.
  - apply orb_true_iff in H as [H | H]; apply orb_true_iff.
    + left. by apply prefix_app_true in H.
    + right. by apply IH.
Qed.

Lemma take_drop_while (p : ascii -> bool) (l : list ascii) :
  take_while p l ++ drop_while p l = l.
Proof.
  induction l as [|a l IH]; [reflexivity|]. cbn.
  destruct (p a); [cbn; by rewrite IH | reflexivity].
Qed.

Lemma drop_while_head (p : ascii -> bool) (l : list ascii) (a : ascii) (l' : list ascii) :
  drop_while p l = a :: l' -> p a = false.
Proof.
  induction l as [|b l IH]; [discriminate|]. cbn.
  destruct (p b) eqn:Hb; [exact IH|]. by intros [= <- _].
Qed.

Lemma length_take_while (p : ascii -> bool) (l : list ascii) :
  length (take_while p l) <= length l.
Proof. induction l as [|a l IH]; cbn; [lia|]. destruct (p a); cbn; lia. Qed.

Lemma length_drop_while (p : ascii -> bool) (l : list ascii) :
  length (drop_while p l) <= length l.
Proof. induction l as [|a l IH]; cbn; [lia|]. destruct (p a); cbn; lia. Qed.

Lemma length_last_component (path : string) :
  length (last_component_rev path) <= String.length path.
Proof.
  unfold last_component_rev. etrans; [apply length_take_while|].
  etrans; [apply length_drop_while|]. by rewrite length_rev, length_chars.
Qed.

Lemma cmp_suffix_app (x rest : list ascii) :
  cmp_suffix x (x ++ rest) = Matched rest.
Proof.
  induction x as [|a x IH]; [by destruct rest|]. cbn.
  by rewrite Ascii.eqb_refl.
Qed.

(** The shape of an extension: nothing, or the last dot of a component
    that does not start with it, and what follows. *)
Lemma ext_of_rev_cases (comp : list ascii) :
  ext_of_rev comp = []
  \/ exists after before,
       comp = after ++ "."%char :: before /\ before <> []
       /\ ext_of_rev comp = "."%char :: rev after.
Proof.
  unfold ext_of_rev.
  pose proof (take_drop_while (fun c => negb (is_dot c)) comp) as Hsplit.
  destruct (drop_while (fun c => negb (is_dot c)) comp) as [|d before] eqn:Hdrop;
    [by left|].
  apply drop_while_head in Hdrop as Hd.
  apply negb_false_iff, Ascii.eqb_eq in Hd. subst d.
  set (after := take_while (fun c => negb (is_dot c)) comp) in *.
  destruct before as [|b before]; [by left|].
  destruct before as [|b' before], after as [|a after].
  - destruct (is_dot b) eqn:Hb; [by left|].
    right. exists [], [b]. by rewrite <- Hsplit.
  - right. exists (a :: after), [b]. by rewrite <- Hsplit.
  - right. exists [], (b :: b' :: before). by rewrite <- Hsplit.
  - right. exists (a :: after), (b :: b' :: before). by rewrite <- Hsplit.
Qed.

End StringFacts.

Lemma string_app_nil_r (s : string) : s +:+ EmptyString = s.
Proof.
  induction s as [|a s IH]; [reflexivity|].
  change (String a (s +:+ EmptyString) = String a s). by rewrite IH.
Qed.

(** The name [isFileUsed] looks for is a prefix of the full base name. *)
Lemma fileBaseName_prefix (file : string) :
  exists q, basename file = fileBaseNameOf file +:+ q.
Proof.
  unfold fileBaseNameOf, basename_suffix, extname, basename.
  pose proof (length_last_component file) as Hlen.
  destruct (ext_of_rev_cases (last_component_rev file))
    as [-> | (after & before & Hc & Hne & ->)].
  - exists EmptyString. cbn. by rewrite string_app_nil_r.
  - rewrite Hc, length_app in Hlen. cbn [length] in Hlen.
    assert (1 <= length before) by (destruct before; [done | cbn; lia]).
    rewrite length_str. cbn [length]. rewrite length_rev.
    replace (S (length after) =? 0)%nat with false by (symmetry; by apply Nat.eqb_neq).
    replace (String.length file <? S (length after))%nat with false
      by (symmetry; apply Nat.ltb_ge; lia).
    cbn [orb].
    replace (String.eqb (str ("."%char :: rev after)) file) with false.
    2:{ symmetry. apply String.eqb_neq. intros E.
        rewrite <- E, length_str in Hlen. cbn [length] in Hlen.
        rewrite length_rev in Hlen. lia. }
    rewrite chars_str. cbn [rev]. rewrite rev_involutive, Hc.
    replace (after ++ "."%char :: before) with ((after ++ ["."%char]) ++ before)
      by (by rewrite <- app_assoc).
    rewrite cmp_suffix_app.
    destruct before as [|b before]; [done|]. cbv beta iota zeta.
    exists (str ("."%char :: rev after)). rewrite <- str_app. f_equal.
    rewrite rev_app_distr, rev_app_distr. cbn. by rewrite <- app_assoc.
Qed.

Lemma entryHits_stripped_name (file : string) (info : ImportInfo) :
  includes "/api/" file = false ->
  entryHits file info = includes (fileBaseNameOf file) (content info).
Proof.
  intros Hapi. unfold entryHits. fold (fileBaseNameOf file). rewrite Hapi.
  destruct (includes (fileBaseNameOf file) (content info)) eqn:Hinc; [reflexivity|].
  cbn [andb]. destruct (has _ mediaExtensions); [|reflexivity]. cbn [andb].
  destruct (includes (basename file) (content info)) eqn:Hfull; [|reflexivity].
  destruct (fileBaseName_prefix file) as [q Hq]. rewrite Hq in Hfull.
  apply includes_prefix_of_needle in Hfull. congruence.
Qed.

Lemma existsb_pointwise {A} (f g : A -> bool) (l : list A) :
  (forall x, f x = g x) -> existsb f l = existsb g l.
Proof. intros H. induction l as [|x l IH]; [reflexivity|]. cbn. by rewrite H, IH. Qed.

(** X1.  The verdict of [isFileUsed] is decided by the critical-file check
    and the first rule of the loop alone: a file is used exactly when it
    is critical or some record other than its own has a content that
    contains the file's base name without its extension.  The media branch
    never adds a verdict, because a text that contains the full base name
    contains that prefix of it. *)
Theorem verdict_is_stripped_name_rule (file : string) (importMap : ImportMap) :
  isFileUsed file importMap
  = isNextJsSystemFile file
    || existsb (fun e => negb (String.eqb e.1 file)
                         && includes (fileBaseNameOf file) (content e.2))
         importMap.
Proof.
  rewrite isFileUsed_existsb.
  destruct (isNextJsSystemFile file) eqn:Hsys; [reflexivity|]. cbn [orb].
  apply existsb_pointwise. intros [k v]. unfold recordHits. cbn [fst snd].
  rewrite entryHits_stripped_name; [reflexivity|].
  destruct (includes "/api/" file) eqn:Hapi; [|reflexivity].
  by rewrite api_path_is_critical in Hsys.
Qed.

(** X2.  Adding records to the index never turns a used file into an
    unused one: if every record of [m1] is a record of [m2] and the file
    is used with [m1], it is used with [m2]. *)
Theorem verdict_monotone (file : string) (m1 m2 : ImportMap) :
  (forall e, e ∈ m1 -> e ∈ m2) ->
  isFileUsed file m1 = true -> isFileUsed file m2 = true.
Proof.
  intros Hsub. rewrite !isFileUsed_existsb, !orb_true_iff, !existsb_elem_of.
  intros [H | (e & He & Hhit)]; [by left | right].
  exists e. split; [by apply Hsub | exact Hhit].
Qed.

Lemma verdict_monotone_witness :
  isFileUsed "/r/src/Button.tsx"
    [("/r/src/b.ts", textRecord "/r/src/b.ts" "export {}");
     ("/r/src/App.tsx", textRecord "/r/src/App.tsx" "<Button/>")] = true.
Proof.
  apply (verdict_monotone "/r/src/Button.tsx"
           [("/r/src/App.tsx", textRecord "/r/src/App.tsx" "<Button/>")]).
  - intros e He. apply elem_of_cons. right. exact He.
  - vm_compute. reflexivity.
Defined.

(** X3.  A file's own record plays no part in its verdict: removing every
    record stored under the file's own path leaves the verdict and the
    inspected records unchanged, so a file is never used merely because
    its own text names it. *)
Theorem own_record_is_ignored (file : string) (importMap : ImportMap) :
  isFileUsed_run file importMap
  = isFileUsed_run file (filter (fun e => e.1 <> file) importMap).
Proof.
  unfold isFileUsed_run. destruct (isNextJsSystemFile file); [reflexivity|].
  induction importMap as [|[k v] m IH]; [reflexivity|].
  rewrite filter_cons. cbn [fst scanEntries].
  destruct (String.eqb k file) eqn:Hk.
  - apply String.eqb_eq in Hk as ->. by rewrite decide_False by auto.
  - apply String.eqb_neq in Hk. rewrite decide_True by exact Hk.
    cbn [scanEntries]. rewrite (String_eqb_false _ _ Hk).
    by rewrite IH.
Qed.

Lemma otherKeys_cons (file k : string) (v : ImportInfo) (m : ImportMap) :
  otherKeys file ((k, v) :: m)
  = if String.eqb k file then otherKeys file m else k :: otherKeys file m.
Proof.
  unfold otherKeys. rewrite filter_cons. cbn [fst].
  destruct (String.eqb k file) eqn:Hk.
  - apply String.eqb_eq in Hk. by rewrite decide_False by auto.
  - apply String.eqb_neq in Hk. by rewrite decide_True by exact Hk.
Qed.

(** X4.  The loop of [isFileUsed] stops at the first record that hits.
    For a file that is not critical: when the verdict is [false], every
    record other than the file's own has been inspected, in index order;
    and when a record hits and none before it does, the verdict is [true]
    and the records after it are not inspected. *)
Theorem scan_stops_at_first_hit (file : string) :
  isNextJsSystemFile file = false ->
  (forall m : ImportMap,
      isFileUsed file m = false ->
      isFileUsed_scanned file m = otherKeys file m)
  /\
  (forall (m1 m2 : ImportMap) (k : string) (v : ImportInfo),
      k <> file ->
      entryHits file v = true ->
      existsb (recordHits file) m1 = false ->
      isFileUsed_run file (m1 ++ (k, v) :: m2) = (true, otherKeys file m1 ++ [k])).
Proof.
  intros Hsys. unfold isFileUsed, isFileUsed_scanned, isFileUsed_run.
  rewrite Hsys. split.
  - induction m as [|[k v] m IH]; [reflexivity|].
    rewrite otherKeys_cons. cbn [scanEntries].
    destruct (String.eqb k file); [exact IH|].
    destruct (entryHits file v); [discriminate|]. cbn [fst snd].
    intros H. by rewrite IH.
  - intros m1 m2 k v Hk Hhit. induction m1 as [|[k1 v1] m1 IH]; intros Hnone.
    + cbn. by rewrite (String_eqb_false _ _ Hk), Hhit.
    + cbn [existsb] in Hnone. apply orb_false_iff in Hnone as [H1 Hnone].
      specialize (IH Hnone). rewrite otherKeys_cons.
      cbn [app scanEntries]. unfold recordHits in H1. cbn [fst snd] in H1.
      destruct (String.eqb k1 file); [exact IH|]. cbn [negb andb] in H1.
      rewrite H1, IH. reflexivity.
Qed.

Lemma scan_stops_at_first_hit_witness :
  isFileUsed_scanned "/r/src/orphan.ts"
    [("/r/src/a.ts", textRecord "/r/src/a.ts" "export {}");
     ("/r/src/orphan.ts", textRecord "/r/src/orphan.ts" "orphan");
     ("/r/src/b.ts", textRecord "/r/src/b.ts" "export {}")]
  = ["/r/src/a.ts"; "/r/src/b.ts"]
  /\ isFileUsed_run "/r/src/Button.tsx"
       [("/r/src/a.ts", textRecord "/r/src/a.ts" "export {}");
        ("/r/src/App.tsx", textRecord "/r/src/App.tsx" "<Button/>");
        ("/r/src/b.ts", textRecord "/r/src/b.ts" "Button")]
     = (true, ["/r/src/a.ts"; "/r/src/App.tsx"]).
Proof.
  split.
  - apply (proj1 (scan_stops_at_first_hit "/r/src/orphan.ts" eq_refl)).
    vm_compute. reflexivity.
  - apply (proj2 (scan_stops_at_first_hit "/r/src/Button.tsx" eq_refl)
             [("/r/src/a.ts", textRecord "/r/src/a.ts" "export {}")]);
      [discriminate | vm_compute; reflexivity | vm_compute; reflexivity].
Defined.

(** * Further properties of the classifier *)

Lemma search_bol_later (r : re) (l : list ascii) (i : nat) :
  search (Cat Bol r) (S i) l = None.
Proof. revert i. induction l as [|a l IH]; intros i; cbn; [reflexivity | apply IH]. Qed.

(** A pattern that starts with [^] matches only at the start of the name. *)
Lemma test_bol (r : re) (s : string) :
  test (Cat Bol r) s = bool_decide (is_Some (run r Some (MState 0 (chars s) None))).
Proof.
  unfold test. destruct (chars s) as [|a l]; cbn [search match_at run pos].
  - change (0 =? 0)%nat with true. cbv iota.
    by destruct (run r Some (MState 0 [] None)).
  - change (0 =? 0)%nat with true. cbv iota.
    destruct (run r Some (MState 0 (a :: l) None)); [reflexivity|].
    by rewrite search_bol_later.
Qed.

Lemma no_match_is_false {A} (P : Prop) :
  bool_decide (is_Some (@None A)) = true -> P.
Proof. intros H%bool_decide_eq_true_1. by apply is_Some_None in H. Qed.

Lemma componentRe_first (fileName : string) :
  test componentRe fileName = true ->
  exists a l, chars fileName = a :: l /\ upper a = true.
Proof.
  unfold componentRe, seq. cbn [foldr]. rewrite test_bol. cbn [run rest].
  destruct (chars fileName) as [|a l]; [apply no_match_is_false|].
  destruct (upper a) eqn:Hup; [intros _; by exists a, l | apply no_match_is_false].
Qed.

Lemma hookRe_first (fileName : string) :
  test hookRe fileName = true -> exists l, chars fileName = "u"%char :: l.
Proof.
  unfold hookRe, seq, lit.
  cbn [foldr fmap list_fmap chars String.list_ascii_of_string].
  rewrite test_bol. unfold seq. cbn [foldr run rest].
  destruct (chars fileName) as [|a l]; [apply no_match_is_false|].
  destruct (one "u" a) eqn:Hu; [|apply no_match_is_false].
  unfold one in Hu. apply Ascii.eqb_eq in Hu as ->. intros _. by exists l.
Qed.

(** X5.  No name is accepted by both the component rule and the hook rule
    of [getFileType]: the first requires an upper-case first letter, the
    second the first letter [u].  The order of these two rules therefore
    never decides a category. *)
Theorem component_and_hook_rules_disjoint (fileName : string) :
  test componentRe fileName = true -> test hookRe fileName = false.
Proof.
  intros (a & l & Hc & Hup)%componentRe_first.
  apply not_true_is_false. intros (l' & Hh)%hookRe_first.
  rewrite Hc in Hh. injection Hh as -> _. by vm_compute in Hup.
Qed.

Lemma component_and_hook_rules_disjoint_witness :
  test hookRe "UseModal.tsx" = false.
Proof.
  apply component_and_hook_rules_disjoint. vm_compute. reflexivity.
Defined.

(** * Further properties of the index *)

Section IndexFacts.
Context (read : string -> option string).

Lemma map_set_fresh (k : string) (v : ImportInfo) (m : ImportMap) :
  k ∉ m.*1 -> map_set k v m = m ++ [(k, v)].
Proof.
  induction m as [|[k' v'] m IH]; intros Hk; [reflexivity|].
  cbn [map_set]. cbn in Hk. apply not_elem_of_cons in Hk as [Hne Hk].
  rewrite String_eqb_false by congruence. by rewrite IH.
Qed.

Lemma map_set_keys (k : string) (v : ImportInfo) (m : ImportMap) :
  (map_set k v m).*1 = if bool_decide (k ∈ m.*1) then m.*1 else m.*1 ++ [k].
Proof.
  induction m as [|[k' v'] m IH]; [reflexivity|]. cbn [map_set].
  destruct (String.eqb k' k) eqn:Hk.
  - apply String.eqb_eq in Hk as ->. cbn.
    by rewrite bool_decide_eq_true_2 by left.
  - apply String.eqb_neq in Hk. cbn. rewrite IH.
    destruct (bool_decide (k ∈ m.*1)) eqn:Hin.
    + apply bool_decide_eq_true_1 in Hin.
      by rewrite bool_decide_eq_true_2 by (by right).
    + apply bool_decide_eq_false_1 in Hin.
      rewrite bool_decide_eq_false_2; [reflexivity|].
      intros [?|?]%elem_of_cons; congruence.
Qed.

Lemma map_get_set_eq (k : string) (v : ImportInfo) (m : ImportMap) :
  map_get k (map_set k v m) = Some v.
Proof.
  induction m as [|[k' v'] m IH]; cbn; [by rewrite String.eqb_refl|].
  destruct (String.eqb k' k) eqn:Hk; cbn; [by rewrite String.eqb_refl|].
  by rewrite Hk.
Qed.

Lemma map_get_set_ne (k k' : string) (v : ImportInfo) (m : ImportMap) :
  k' <> k -> map_get k' (map_set k v m) = map_get k' m.
Proof.
  intros Hne. induction m as [|[k0 v0] m IH]; cbn.
  - by rewrite String_eqb_false by congruence.
  - destruct (String.eqb k0 k) eqn:Hk; cbn.
    + apply String.eqb_eq in Hk as ->.
      by rewrite !(String_eqb_false k k') by congruence.
    + by rewrite IH.
Qed.

Lemma buildImportMap_keys_NoDup (files : list string) (acc : ImportMap * list string) :
  NoDup acc.1.*1 -> NoDup (buildImportMap read files acc).1.*1.
Proof.
  revert acc. induction files as [|f files IH]; intros acc Hnd; [exact Hnd|].
  cbn [buildImportMap]. destruct (read f) as [text|]; apply IH; cbn [fst]; [|exact Hnd].
  rewrite map_set_keys. case_bool_decide; [exact Hnd|].
  apply NoDup_app. split; [exact Hnd|]. split; [|apply NoDup_singleton].
  intros x Hx ->%list_elem_of_singleton. contradiction.
Qed.

Lemma buildImportMap_distinct (files : list string) (acc : ImportMap * list string) :
  NoDup files -> (forall f, f ∈ files -> f ∉ acc.1.*1) ->
  (buildImportMap read files acc).1 = acc.1 ++ omap (indexEntry read) files.
Proof.
  revert acc. induction files as [|f files IH]; intros acc Hnd Hfresh.
  - cbn. by rewrite app_nil_r.
  - apply NoDup_cons in Hnd as [Hf Hnd]. cbn [buildImportMap].
    rewrite omap_cons_app. unfold indexEntry at 1.
    destruct (read f) as [text|] eqn:Hread; cbn [fmap option_fmap option_map option_list].
    + rewrite IH; [|exact Hnd|]; cbn [fst].
      * rewrite map_set_fresh by (apply Hfresh; left). by rewrite <- app_assoc.
      * intros g Hg. rewrite map_set_keys.
        rewrite bool_decide_eq_false_2 by (apply Hfresh; left).
        intros [Hin | ->%list_elem_of_singleton]%elem_of_app; [|contradiction].
        by apply (Hfresh g); [right|].
    + rewrite IH; [reflexivity | exact Hnd |]. cbn [fst].
      intros g Hg. apply Hfresh. by right.
Qed.

Lemma buildImportMap_get (files : list string) (acc : ImportMap * list string)
    (f : string) :
  map_get f (buildImportMap read files acc).1
  = if bool_decide (f ∈ files)
    then match read f with
         | Some text => Some (recordOf f text)
         | None => map_get f acc.1
         end
    else map_get f acc.1.
Proof.
  revert acc. induction files as [|g files IH]; intros acc; [reflexivity|].
  cbn [buildImportMap]. destruct (decide (g = f)) as [->|Hne].
  - rewrite (bool_decide_eq_true_2 (f ∈ f :: files)) by left.
    destruct (read f) as [text|] eqn:Hread; rewrite IH; cbn [fst];
      rewrite ?map_get_set_eq; by case_bool_decide.
  - assert (bool_decide (f ∈ g :: files) = bool_decide (f ∈ files)) as ->.
    { apply bool_decide_ext. rewrite elem_of_cons.
      split; [intros [E | H]; [congruence | exact H] | by right]. }
    destruct (read g) as [text|]; rewrite IH; cbn [fst]; [|reflexivity].
    by rewrite map_get_set_ne by congruence.
Qed.


End IndexFacts.

(** X6.  The index never holds two records under one path, whatever the
    file list; and when the file list has no repetition, the index is the
    list of the files whose read succeeded, in the order of the list, each
    stored under its path with its text. *)
Theorem index_is_the_readable_files (read : string -> option string) :
  (forall files : list string,
      NoDup (buildImportMap read files ([], [])).1.*1)
  /\ (forall files : list string,
         NoDup files ->
         (buildImportMap read files ([], [])).1 = omap (indexEntry read) files).
Proof.
  split.
  - intros files. apply buildImportMap_keys_NoDup. constructor.
  - intros files Hnd. rewrite buildImportMap_distinct; [reflexivity | exact Hnd |].
    intros f _ Hin. by inversion Hin.
Qed.

Lemma index_is_the_readable_files_witness :
  indexOf unreadableWorld
  = omap (indexEntry (readFileSync unreadableWorld))
      ["/r/src/orphan.ts"; "/r/src/main.ts"].
Proof.
  apply (proj2 (index_is_the_readable_files (readFileSync unreadableWorld))
           ["/r/src/orphan.ts"; "/r/src/main.ts"]).
  decide_closed.
Defined.

(** X7.  Looking a path up in the index built by the first loop returns
    the record of that file exactly when the path is in the file list and
    its read succeeded; the record holds the text that was read and the
    path itself.  A path that was not listed, or whose read failed, has no
    record. *)
Theorem index_lookup (read : string -> option string) (files : list string)
    (f : string) :
  map_get f (buildImportMap read files ([], [])).1
  = if bool_decide (f ∈ files) then recordOf f <$> read f else None.
Proof.
  rewrite buildImportMap_get. cbn [fst map_get].
  case_bool_decide; [|reflexivity]. by destruct (read f).
Qed.

(** * Further properties of the run *)


Section ReportFacts.
Context (stat : string -> option N) (m : ImportMap).







End ReportFacts.




Lemma fmap_omap_sublist {A B} (g : A -> option B) (h : B -> A) (l : list A) :
  (forall x y, g x = Some y -> h y = x) -> h <$> omap g l `sublist_of` l.
Proof.
  intros Hgh. induction l as [|x l IH]; [constructor|].
  rewrite omap_cons_app. destruct (g x) as [y|] eqn:Hg; cbn.
  - rewrite (Hgh x y Hg). by constructor.
  - by constructor.
Qed.

(** X10.  The report lists only enumerated files, source files first and
    public files after them, each at most once per enumeration and in
    enumeration order: the reported paths form a subsequence of the source
    files followed by the public files. *)
Theorem report_is_subsequence_of_enumeration (w : world) :
  reportedPaths (findUnusedFiles w) `sublist_of` sourceFiles w ++ publicFiles w.
Proof.
  unfold reportedPaths. rewrite findUnusedFiles_unused, fmap_app.
  apply sublist_app; apply fmap_omap_sublist; intros f u Hu.
  - by apply sourceEntry_Some in Hu as (_ & size & _ & ->).
  - by apply publicEntry_Some in Hu as (_ & _ & size & _ & ->).
Qed.

Lemma not_critical_not_api (f : string) :
  isNextJsSystemFile f = false -> getFileType f <> api.
Proof.
  intros Hsys. destruct (includes "/api/" f) eqn:Hapi.
  { by rewrite api_path_is_critical in Hsys. }
  unfold getFileType. rewrite Hapi. repeat case_match; discriminate.
Qed.

Lemma unused_not_critical (f : string) (m : ImportMap) :
  isFileUsed f m = false -> isNextJsSystemFile f = false.
Proof. rewrite isFileUsed_existsb. by intros [? _]%orb_false_iff. Qed.

(** X11.  What the categories of a report tell.  No reported record has
    the category [api].  A record of category [media] is a public file
    reported by the third loop; a record of any other category is a
    source file that is not critical, under the category [getFileType]
    gives its path. *)
Theorem categories_of_report (w : world) (u : UnusedFile) :
  u ∈ unusedFiles (findUnusedFiles w) ->
  uf_type u <> api
  /\ (uf_type u = media ->
      uf_path u ∈ publicFiles w
      /\ alwaysUsedAsset (basename (uf_path u)) = false)
  /\ (uf_type u <> media ->
      uf_path u ∈ sourceFiles w
      /\ isNextJsSystemFile (uf_path u) = false
      /\ uf_type u = getFileType (uf_path u)).
Proof.
  intros [(f & Hf & Hentry) | (f & Hf & Hentry)]%reported_cases.
  - apply sourceEntry_Some in Hentry as (Hunused & size & _ & ->).
    cbn [uf_path uf_type]. apply unused_not_critical in Hunused.
    split; [by apply not_critical_not_api|]. split; [|done].
    intros Hmedia%getFileType_media. exfalso.
    eapply media_not_code; [exact Hmedia | by eapply sourceFiles_code].
  - apply publicEntry_Some in Hentry as (Hlist & _ & size & _ & ->).
    cbn [uf_path uf_type]. split; [discriminate|]. split; [done | congruence].
Qed.

Lemma categories_of_report_witness :
  component <> api
  /\ (component = media ->
      "/r/src/App.tsx" ∈ publicFiles demoWorld
      /\ alwaysUsedAsset (basename "/r/src/App.tsx") = false)
  /\ (component <> media ->
      "/r/src/App.tsx" ∈ sourceFiles demoWorld
      /\ isNextJsSystemFile "/r/src/App.tsx" = false
      /\ component = getFileType "/r/src/App.tsx").
Proof.
  apply (categories_of_report demoWorld
           (mkUnusedFile "/r/src/App.tsx" 10 component None)).
  decide_closed.
Defined.

(** * Properties of the grouping of [printResults] *)

Section Grouping.
Implicit Types (l : list UnusedFile) (u : UnusedFile) (t : FileType).

Lemma groupedFiles_snoc l u :
  groupedFiles (l ++ [u]) = addToGroup u (groupedFiles l).
Proof. unfold groupedFiles. by rewrite fold_left_app. Qed.

Lemma firstOccurrences_elem (ts : list FileType) t :
  t ∈ firstOccurrences ts <-> t ∈ ts.
Proof.
  induction ts as [|a ts IH]; [reflexivity|]. cbn [firstOccurrences].
  rewrite !elem_of_cons, list_elem_of_filter, IH.
  destruct (decide (t = a)) as [->|Hne]; [by split; left|].
  split; [intros [?|[_ ?]]; auto | intros [?|?]; auto].
Qed.

Lemma firstOccurrences_NoDup (ts : list FileType) : NoDup (firstOccurrences ts).
Proof.
  induction ts as [|a ts IH]; [constructor|]. cbn [firstOccurrences].
  constructor; [|by apply NoDup_filter].
  by intros [? _]%list_elem_of_filter.
Qed.

Lemma firstOccurrences_snoc (ts : list FileType) t :
  firstOccurrences (ts ++ [t])
  = firstOccurrences ts ++ (if bool_decide (t ∈ ts) then [] else [t]).
Proof.
  induction ts as [|a ts IH]; [reflexivity|].
  cbn [app firstOccurrences]. rewrite IH, filter_app. f_equal. f_equal.
  destruct (decide (t = a)) as [->|Hne].
  - rewrite (bool_decide_eq_true_2 (a ∈ a :: ts)) by left.
    case_bool_decide; [reflexivity|]. rewrite filter_cons.
    by rewrite decide_False by auto.
  - assert (bool_decide (t ∈ a :: ts) = bool_decide (t ∈ ts)) as ->.
    { apply bool_decide_ext. rewrite elem_of_cons.
      split; [intros [E | H]; [congruence | exact H] | by right]. }
    case_bool_decide; [reflexivity|]. rewrite filter_cons.
    by rewrite decide_True by exact Hne.
Qed.

(** Adding a file to groups with distinct keys. *)
Lemma addToGroup_fmap (F : FileType -> list UnusedFile) (ks : list FileType) u :
  NoDup ks ->
  addToGroup u ((fun t => (t, F t)) <$> ks)
  = ((fun t => (t, F t ++ if decide (t = uf_type u) then [u] else [])) <$> ks)
    ++ (if bool_decide (uf_type u ∈ ks) then [] else [(uf_type u, [u])]).
Proof.
  induction ks as [|a ks IH]; intros Hnd; [reflexivity|].
  apply NoDup_cons in Hnd as [Ha Hnd]. cbn [fmap list_fmap addToGroup].
  destruct (decide (a = uf_type u)) as [->|Hne].
  - rewrite (bool_decide_eq_true_2 (uf_type u ∈ uf_type u :: ks)) by left.
    rewrite app_nil_r. f_equal. apply Forall_fmap_ext_1, Forall_forall.
    intros t Ht. rewrite decide_False by (intros ->; contradiction).
    by rewrite app_nil_r.
  - rewrite (IH Hnd), app_nil_r. cbn [app]. f_equal. f_equal.
    assert (bool_decide (uf_type u ∈ a :: ks) = bool_decide (uf_type u ∈ ks)) as ->;
      [|reflexivity].
    apply bool_decide_ext. rewrite elem_of_cons.
    split; [intros [E | H]; [congruence | exact H] | by right].
Qed.

Lemma filter_type_absent l t :
  t ∉ uf_type <$> l -> filter (fun u => uf_type u = t) l = [].
Proof.
  induction l as [|u l IH]; [reflexivity|]. cbn [fmap list_fmap].
  intros [Hne Hin]%not_elem_of_cons.
  rewrite filter_cons_False by congruence. by apply IH.
Qed.

Lemma groupedFiles_spec l :
  groupedFiles l
  = (fun t => (t, filter (fun u => uf_type u = t) l))
      <$> firstOccurrences (uf_type <$> l).
Proof.
  induction l as [|u l IH] using rev_ind; [reflexivity|].
  rewrite groupedFiles_snoc, IH, addToGroup_fmap by apply firstOccurrences_NoDup.
  rewrite (fmap_app uf_type l [u]). change (uf_type <$> [u]) with [uf_type u].
  rewrite firstOccurrences_snoc, fmap_app. f_equal.
  - apply Forall_fmap_ext_1, Forall_forall. intros t _.
    rewrite filter_app, filter_cons, filter_nil.
    destruct (decide (t = uf_type u)) as [->|Hne].
    + by rewrite decide_True by reflexivity.
    + by rewrite decide_False by congruence.
  - assert (bool_decide (uf_type u ∈ firstOccurrences (uf_type <$> l))
            = bool_decide (uf_type u ∈ uf_type <$> l)) as ->
      by apply bool_decide_ext, firstOccurrences_elem.
    case_bool_decide as Hin; [reflexivity|]. cbn [fmap list_fmap].
    rewrite filter_app, filter_cons, filter_nil, decide_True by reflexivity.
    by rewrite filter_type_absent by exact Hin.
Qed.



End Grouping.

Lemma filter_all {A} (P : A -> Prop) `{forall x, Decision (P x)} (l : list A) :
  (forall x, x ∈ l -> P x) -> filter P l = l.
Proof.
  induction l as [|x l IH]; intros Hall; [reflexivity|].
  rewrite filter_cons_True by (apply Hall; left).
  f_equal. apply IH. intros y Hy. apply Hall. by right.
Qed.

(** X12.  [printResults] splits the report by category without losing,
    repeating or reordering anything: the groups are listed in the order
    in which their category first occurs in the report, each group holds
    the records of its category in report order, and no group is empty,
    so the loop prints a section for every group. *)
Theorem groups_partition_the_report (unused : list UnusedFile) :
  groupedFiles unused
  = (fun t => (t, filter (fun u => uf_type u = t) unused))
      <$> firstOccurrences (uf_type <$> unused)
  /\ printedGroups unused = groupedFiles unused.
Proof.
  split; [apply groupedFiles_spec|].
  unfold printedGroups. apply filter_all. intros [t files].
  rewrite groupedFiles_spec.
  intros (t' & [= -> ->] & Ht)%list_elem_of_fmap. cbn [snd].
  apply firstOccurrences_elem, list_elem_of_fmap in Ht as (u & -> & Hu).
  assert (u ∈ filter (fun u' => uf_type u' = uf_type u) unused) as Hin
    by by apply list_elem_of_filter.
  destruct (filter _ unused); [by inversion Hin | discriminate].
Qed.


(** * Properties of the enumeration, continued *)

(** X14.  An entry whose name is a member of [ignoredPaths] is passed over
    whatever it is, file or directory, readable or not: [getAllFiles]
    returns what it returns for the directory without that entry. *)
Theorem ignored_entry_is_invisible (dir item : string) (child : fsnode)
    (before after : list (string * fsnode)) :
  has item ignoredPaths = true ->
  getAllFiles dir (Some (FsDir (before ++ (item, child) :: after)))
  = getAllFiles dir (Some (FsDir (before ++ after))).
Proof.
  intros Hign. cbn [getAllFiles]. induction before as [|[i c] before IH].
  - cbn. by rewrite Hign.
  - cbn in IH |- *. destruct (has i ignoredPaths); [exact IH|].
    destruct c; by rewrite ?IH.
Qed.

Lemma ignored_entry_is_invisible_witness :
  getAllFiles "/r/src"
    (Some (FsDir [("a.ts", FsFile); ("node_modules", FsDir [("dep.ts", FsFile)]);
                  ("b.ts", FsFile)]))
  = getAllFiles "/r/src" (Some (FsDir [("a.ts", FsFile); ("b.ts", FsFile)])).
Proof.
  apply (ignored_entry_is_invisible "/r/src" "node_modules"
           (FsDir [("dep.ts", FsFile)]) [("a.ts", FsFile)] [("b.ts", FsFile)]).
  vm_compute. reflexivity.
Defined.

(** X15.  How [getAllFiles] degrades.  A subdirectory that cannot be
    listed contributes nothing and its siblings are still enumerated.  An
    entry whose [statSync] throws, and whose name is not ignored, ends
    the enumeration of its directory: the entries listed after it are
    lost, the ones before it are kept. *)
Theorem enumeration_failures (dir item : string)
    (before after : list (string * fsnode)) :
  getAllFiles dir (Some (FsDir (before ++ (item, FsDirUnreadable) :: after)))
  = getAllFiles dir (Some (FsDir (before ++ after)))
  /\ (has item ignoredPaths = false ->
      getAllFiles dir (Some (FsDir (before ++ (item, FsStatError) :: after)))
      = getAllFiles dir (Some (FsDir before))).
Proof.
  cbn [getAllFiles]. split.
  - induction before as [|[i c] before IH].
    + cbn. by destruct (has item ignoredPaths).
    + cbn in IH |- *. destruct (has i ignoredPaths); [exact IH|].
      destruct c; by rewrite ?IH.
  - intros Hign. induction before as [|[i c] before IH].
    + cbn. by rewrite Hign.
    + cbn in IH |- *. destruct (has i ignoredPaths); [exact IH|].
      destruct c; by rewrite ?IH.
Qed.

Lemma enumeration_failures_witness :
  getAllFiles "/r/src"
    (Some (FsDir [("a.ts", FsFile); ("gone.ts", FsStatError); ("b.ts", FsFile)]))
  = getAllFiles "/r/src" (Some (FsDir [("a.ts", FsFile)])).
Proof.
  apply (proj2 (enumeration_failures "/r/src" "gone.ts"
                  [("a.ts", FsFile)] [("b.ts", FsFile)])).
  vm_compute. reflexivity.
Defined.

(** * Properties of the regular-expression matcher and of [findImports] *)

Lemma reaches_refl (st : mstate) : reaches st st.
Proof. exists 0. rewrite Nat.add_0_r. cbn. split; [done|]. split; [done | lia]. Qed.

Lemma reaches_trans (st1 st2 st3 : mstate) :
  reaches st1 st2 -> reaches st2 st3 -> reaches st1 st3.
Proof.
  intros (n & Hp & Hr & Hn) (n' & Hp' & Hr' & Hn'). exists (n + n').
  rewrite Hr, length_drop in Hn'. rewrite Hp', Hp, Hr', Hr, drop_drop.
  split; [lia|]. split; [done | lia].
Qed.

Lemma star_k_inv (p : cls) (k : cont) (i : nat) (l : list ascii)
    (c : option (list ascii)) (res : mstate) :
  star_k p k i l c = Some res ->
  exists n, n <= length l /\ k (MState (i + n) (drop n l) c) = Some res.
Proof.
  revert i. induction l as [|a l IH]; intros i; cbn [star_k].
  - intros H. exists 0. rewrite Nat.add_0_r. by split.
  - destruct (p a).
    + destruct (star_k p k (S i) l c) as [r|] eqn:Hstar.
      * intros [= ->]. destruct (IH _ Hstar) as (n & Hn & Hk).
        exists (S n). rewrite Nat.add_succ_r. cbn. split; [lia | exact Hk].
      * intros H. exists 0. rewrite Nat.add_0_r. cbn. split; [lia | exact H].
    + intros H. exists 0. rewrite Nat.add_0_r. cbn. split; [lia | exact H].
Qed.

(** Whatever a pattern returns was returned by its continuation, called
    further on in the input; a pattern without the group leaves the
    capture as it was. *)
Lemma run_inv (r : re) (k : cont) (st res : mstate) :
  run r k st = Some res ->
  exists st', k st' = Some res /\ reaches st st'
              /\ (hasGroup r = false -> cap st' = cap st).
Proof.
  revert k st. induction r as [|p|p|r1 IH1 r2 IH2|r1 IH1 r2 IH2|r1 IH1| |];
    intros k st; cbn [run hasGroup].
  - intros H. exists st. split; [exact H|]. split; [apply reaches_refl | done].
  - destruct st as [i l c]. cbn [rest pos cap]. destruct l as [|a l]; [done|].
    destruct (p a); [|done]. intros H. eexists. split; [exact H|].
    split; [|done]. exists 1. cbn. rewrite Nat.add_1_r. split; [done|].
    split; [done | lia].
  - destruct st as [i l c]. cbn [rest pos cap].
    intros (n & Hn & Hk)%star_k_inv. eexists. split; [exact Hk|].
    split; [|done]. exists n. by cbn.
  - intros (st1 & H1 & Hr1 & Hc1)%IH1. apply IH2 in H1 as (st2 & H2 & Hr2 & Hc2).
    exists st2. split; [exact H2|]. split; [by eapply reaches_trans|].
    intros [Hg1 Hg2]%orb_false_iff. by rewrite Hc2, Hc1.
  - destruct (run r1 k st) as [x|] eqn:Hrun.
    + intros [= ->]. apply IH1 in Hrun as (st1 & H1 & Hr1 & Hc1).
      exists st1. split; [exact H1|]. split; [exact Hr1|].
      intros [Hg1 Hg2]%orb_false_iff. auto.
    + intros (st2 & H2 & Hr2 & Hc2)%IH2.
      exists st2. split; [exact H2|]. split; [exact Hr2|].
      intros [Hg1 Hg2]%orb_false_iff. auto.
  - intros (st1 & H1 & Hr1 & _)%IH1. eexists. split; [exact H1|].
    split; [exact Hr1 | done].
  - destruct (pos st =? 0); [|done].
    intros H. exists st. split; [exact H|]. split; [apply reaches_refl | done].
  - destruct (rest st) eqn:Hrest; [|done].
    intros H. exists st. split; [exact H|]. split; [apply reaches_refl | done].
Qed.

Lemma match_at_inv (r : re) (i : nat) (l : list ascii) (st : mstate) :
  match_at r i l = Some st ->
  (exists n, pos st = i + n /\ rest st = drop n l /\ n <= length l)
  /\ (hasGroup r = false -> cap st = None).
Proof.
  unfold match_at. intros (st' & [= ->] & Hreach & Hcap)%run_inv.
  split; [exact Hreach | exact Hcap].
Qed.

Lemma matches_go_no_group (r : re) (skip i : nat) (l : list ascii) :
  hasGroup r = false ->
  Forall (fun m => group1 m = None) (matches_go r skip i l).
Proof.
  intros Hg. revert skip i. induction l as [|a l IH]; intros skip i.
  - destruct skip; cbn [matches_go]; [|constructor].
    destruct (match_at r i []) as [st|] eqn:Hm; [|constructor].
    constructor; [|constructor]. cbn.
    by rewrite (proj2 (match_at_inv _ _ _ _ Hm) Hg).
  - destruct skip; cbn [matches_go]; [|apply IH].
    destruct (match_at r i (a :: l)) as [st|] eqn:Hm; [|apply IH].
    constructor; [|apply IH]. cbn.
    by rewrite (proj2 (match_at_inv _ _ _ _ Hm) Hg).
Qed.

Lemma addImport_no_group (ms : list rmatch) (acc : gset string) :
  Forall (fun m => group1 m = None) ms -> fold_left addImport ms acc = acc.
Proof.
  intros Hms. revert acc. induction Hms as [|m ms Hm _ IH]; intros acc; [reflexivity|].
  cbn [fold_left]. unfold addImport at 2. rewrite Hm. apply IH.
Qed.

(** X16.  The fourth pattern of [findImports], the one for [dynamic(]
    calls, has no capturing group, so its matches never pass the test on
    [match[1]]: it adds no import target, and [findImports] returns what
    the first three patterns alone collect. *)
Theorem dynamic_pattern_adds_nothing (text : string) :
  findImports text
  = fold_left (fun acc pattern => fold_left addImport (matches pattern text) acc)
      (take 3 importPatterns) ∅.
Proof.
  unfold findImports, importPatterns. cbn [fold_left take].
  apply addImport_no_group, matches_go_no_group. reflexivity.
Qed.

Lemma search_inv (r : re) (i : nat) (l : list ascii) (start : nat) (st : mstate) :
  search r i l = Some (start, st) ->
  exists j, start = i + j /\ j <= length l
            /\ match_at r start (drop j l) = Some st.
Proof.
  revert i. induction l as [|a l IH]; intros i; cbn [search].
  - destruct (match_at r i []) eqn:Hm; [|done]. intros [= <- <-].
    exists 0. rewrite Nat.add_0_r. by cbn.
  - destruct (match_at r i (a :: l)) eqn:Hm.
    + intros [= <- <-]. exists 0. rewrite Nat.add_0_r. cbn. split; [done|].
      split; [lia | exact Hm].
    + intros (j & -> & Hj & Hmatch)%IH. exists (S j).
      rewrite Nat.add_succ_r. cbn. split; [done|]. split; [lia | exact Hmatch].
Qed.

(** A pattern that ends with [$] matches up to the end of the input. *)
Lemma run_to_end (r1 r2 : re) (st res : mstate) :
  run (Cat r1 (Cat r2 (Cat Eol Eps))) Some st = Some res -> rest res = [].
Proof.
  cbn [run]. intros (st1 & H1 & _)%run_inv.
  apply run_inv in H1 as (st2 & H2 & _).
  destruct (rest st2) eqn:Hrest; [|done]. by injection H2 as <-.
Qed.

Lemma str_of_chars (s : string) : str (chars s) = s.
Proof. apply String.string_of_list_ascii_of_string. Qed.

(** Removing a final script extension leaves a prefix of the string. *)
Lemma remove_scriptExt_prefix (g : string) :
  exists n, remove_first scriptExtRe g = str (take n (chars g)).
Proof.
  unfold remove_first.
  destruct (search scriptExtRe 0 (chars g)) as [[start st]|] eqn:Hs.
  - apply search_inv in Hs as (j & -> & _ & Hm). unfold match_at in Hm.
    apply run_to_end in Hm. rewrite Hm, app_nil_r. by eexists.
  - exists (length (chars g)). by rewrite take_ge, str_of_chars.
Qed.

Lemma relative_prefix (g : string) (n : nat) :
  startsWith "." g = true ->
  str (take n (chars g)) = EmptyString
  \/ startsWith "." (str (take n (chars g))) = true.
Proof.
  intros Hdot. destruct n as [|n]; [by left|]. right.
  unfold startsWith in *. destruct g as [|a g]; [discriminate|].
  cbn [String.prefix] in Hdot. destruct (ascii_dec "." a) as [<-|]; [|discriminate].
  cbn [chars String.list_ascii_of_string take str String.string_of_list_ascii
       String.prefix].
  destruct (ascii_dec "." "."); [|contradiction].
  by destruct (String.string_of_list_ascii _).
Qed.

Section ImportTargets.

Lemma addImport_relative (acc : gset string) (m : rmatch) :
  relativeTargets acc -> relativeTargets (addImport acc m).
Proof.
  intros Hacc. unfold addImport, relativeTargets. destruct (group1 m) as [g|]; [|exact Hacc].
  destruct (negb (String.eqb g EmptyString) && startsWith "." g) eqn:Hg; [|exact Hacc].
  apply andb_true_iff in Hg as [_ Hdot].
  intros g' [->%elem_of_singleton | [->%elem_of_singleton | Hin]%elem_of_union]%elem_of_union.
  - destruct (remove_scriptExt_prefix g) as [n ->]. by apply relative_prefix.
  - by right.
  - by apply Hacc.
Qed.

Lemma fold_addImport_relative (ms : list rmatch) (acc : gset string) :
  relativeTargets acc -> relativeTargets (fold_left addImport ms acc).
Proof.
  revert acc. induction ms as [|m ms IH]; intros acc Hacc; [exact Hacc|].
  cbn [fold_left]. by apply IH, addImport_relative.
Qed.

Lemma findImports_relative (text : string) : relativeTargets (findImports text).
Proof.
  unfold findImports.
  assert (forall ps acc, relativeTargets acc ->
            relativeTargets (fold_left (fun acc pattern =>
              fold_left addImport (matches pattern text) acc) ps acc)) as Hfold.
  { induction ps as [|p ps IH]; intros acc Hacc; [exact Hacc|].
    cbn [fold_left]. by apply IH, fold_addImport_relative. }
  apply Hfold. intros g Hg. by apply not_elem_of_empty in Hg.
Qed.

End ImportTargets.

(** X17.  [findImports] keeps relative targets only: every string in the
    set it returns begins with a dot, or is the empty string.  The empty
    string does occur: it is what remains of a target that is nothing but
    a script extension once that extension is removed. *)
Theorem import_targets_are_relative :
  (forall text g : string,
      g ∈ findImports text -> g = EmptyString \/ startsWith "." g = true)
  /\ findImports "require('.ts')" = {[ ".ts"; EmptyString ]}.
Proof.
  split; [exact findImports_relative | vm_compute; reflexivity].
Qed.

Lemma import_targets_are_relative_witness :
  "./Button" = EmptyString \/ startsWith "." "./Button" = true.
Proof.
  apply (proj1 import_targets_are_relative "import { Button } from './Button'").
  decide_closed.
Defined.

(** * Paths of plain trees *)

Section PlainPaths.

Lemma string_app_assoc (a b c : string) : (a +:+ b) +:+ c = a +:+ (b +:+ c).
Proof.
  induction a as [|x a IH]; [reflexivity|].
  change (String x ((a +:+ b) +:+ c) = String x (a +:+ (b +:+ c))). by rewrite IH.
Qed.

Lemma chars_app (a b : string) : chars (a +:+ b) = chars a ++ chars b.
Proof.
  induction a as [|x a IH]; [reflexivity|].
  change (x :: chars (a +:+ b) = x :: (chars a ++ chars b)). by rewrite IH.
Qed.

Lemma plainName_facts (s : string) :
  plainName s = true ->
  s <> EmptyString /\ includes "/" s = false /\ s <> "." /\ s <> "..".
Proof.
  unfold plainName. rewrite !andb_true_iff, !negb_true_iff, !String.eqb_neq.
  tauto.
Qed.

(** A string without a slash, character by character. *)
Lemma slash_free_chars (s : string) :
  includes "/" s = false -> Forall (fun c => c <> "/"%char) (chars s).
Proof.
  induction s as [|c s IH]; [constructor|]. cbn [includes String.prefix].
  intros [Hc Hs]%orb_false_iff. constructor; [|by apply IH].
  destruct (ascii_dec "/" c) as [<-|Hne]; [|congruence].
  by destruct s.
Qed.

Lemma split_go_slash_free (s t : string) (cur : list ascii) :
  includes "/" s = false ->
  split_go "/" 0 cur (s +:+ t) = split_go "/" 0 (rev (chars s) ++ cur) t.
Proof.
  revert cur. induction s as [|c s IH]; intros cur; [reflexivity|].
  cbn [includes]. intros [Hc Hs]%orb_false_iff.
  change (String c s +:+ t) with (String c (s +:+ t)). cbn [split_go].
  assert (String.prefix "/" (String c (s +:+ t)) = false) as ->.
  { cbn [String.prefix] in Hc |- *. destruct (ascii_dec "/" c); [|reflexivity].
    by destruct s. }
  rewrite (IH _ Hs). f_equal. cbn [chars String.list_ascii_of_string rev].
  by rewrite <- app_assoc.
Qed.

Lemma split_go_slash (t : string) (cur : list ascii) :
  split_go "/" 0 cur ("/" +:+ t) = str (rev cur) :: split_go "/" 0 [] t.
Proof.
  change ("/" +:+ t) with (String "/" t). cbn [split_go].
  assert (String.prefix "/" (String "/" t) = true) as ->; [|reflexivity].
  cbn [String.prefix]. destruct (ascii_dec "/" "/"); [by destruct t | contradiction].
Qed.

Lemma split_go_slashJoin (p : string) (R : list string) (cur : list ascii) :
  Forall (fun s => includes "/" s = false) (p :: R) ->
  split_go "/" 0 cur (slashJoin (p :: R)) = str (rev cur ++ chars p) :: R.
Proof.
  revert p cur. induction R as [|q R IH]; intros p cur [Hp HR]%Forall_cons.
  - cbn [slashJoin]. rewrite <- (string_app_nil_r p) at 1.
    rewrite split_go_slash_free by exact Hp. cbn [split_go].
    by rewrite rev_app_distr, rev_involutive.
  - change (slashJoin (p :: q :: R)) with (p +:+ "/" +:+ slashJoin (q :: R)).
    rewrite split_go_slash_free by exact Hp. rewrite split_go_slash.
    rewrite (IH q [] HR). cbn [rev app].
    by rewrite rev_app_distr, rev_involutive, str_of_chars.
Qed.

(** Splitting at the slashes gives the pieces back. *)
Lemma split_slashJoin (R : list string) :
  R <> [] -> Forall (fun s => includes "/" s = false) R ->
  split "/" (slashJoin R) = R.
Proof.
  destruct R as [|p R]; [done|]. intros _ HR. unfold split.
  rewrite split_go_slashJoin by exact HR. cbn [rev app]. by rewrite str_of_chars.
Qed.

End PlainPaths.

Section Normalize.

Lemma norm_step_plain (res : list string) (seg : string) :
  plainName seg = true -> norm_step false res seg = seg :: res.
Proof.
  intros (H0 & _ & H1 & H2)%plainName_facts. unfold norm_step.
  by rewrite !String_eqb_false by done.
Qed.

Lemma fold_norm_step (R acc : list string) :
  Forall (fun s => s = EmptyString \/ plainName s = true) R ->
  fold_left (norm_step false) R acc
  = rev (filter (fun s => s <> EmptyString) R) ++ acc.
Proof.
  intros HR. revert acc. induction HR as [|s R Hs _ IH]; intros acc; [reflexivity|].
  cbn [fold_left]. rewrite IH, filter_cons. destruct Hs as [-> | Hs].
  - by rewrite decide_False by auto.
  - rewrite norm_step_plain by exact Hs.
    rewrite decide_True by (by apply plainName_facts in Hs as [? _]).
    cbn [rev]. by rewrite <- app_assoc.
Qed.

Lemma slashJoin_cons2 (a x : string) (rest : list string) :
  slashJoin ((a +:+ "/" +:+ x) :: rest) = a +:+ "/" +:+ slashJoin (x :: rest).
Proof.
  destruct rest as [|y rest]; [reflexivity|].
  change (((a +:+ "/" +:+ x) +:+ "/" +:+ slashJoin (y :: rest))
          = a +:+ "/" +:+ (x +:+ "/" +:+ slashJoin (y :: rest))).
  by rewrite !string_app_assoc.
Qed.

Lemma join_fold (rest : list string) (s : string) :
  fold_left (fun acc x => acc +:+ "/" +:+ x) rest s = slashJoin (s :: rest).
Proof.
  revert s. induction rest as [|x rest IH]; intros s; [reflexivity|].
  cbn [fold_left]. rewrite IH. rewrite <- string_app_assoc.
  rewrite (string_app_assoc s "/" x). apply slashJoin_cons2.
Qed.

Lemma slashJoin_snoc (L : list string) (p : string) :
  L <> [] -> slashJoin (L ++ [p]) = slashJoin L +:+ "/" +:+ p.
Proof.
  induction L as [|a L IH]; [done|]. intros _. destruct L as [|b L]; [reflexivity|].
  change (a +:+ "/" +:+ slashJoin ((b :: L) ++ [p])
          = (a +:+ "/" +:+ slashJoin (b :: L)) +:+ "/" +:+ p).
  rewrite IH by done. by rewrite !string_app_assoc.
Qed.

Lemma normalizeString_slashJoin (R : list string) :
  R <> [] ->
  Forall (fun s => s = EmptyString \/ plainName s = true) R ->
  normalizeString (slashJoin R) false
  = slashJoin (filter (fun s => s <> EmptyString) R).
Proof.
  intros Hne HR. unfold normalizeString, segments.
  rewrite split_slashJoin; [|exact Hne|].
  - rewrite fold_norm_step by exact HR. rewrite app_nil_r, rev_involutive.
    destruct (filter _ R) as [|s rest]; [reflexivity | apply join_fold].
  - eapply Forall_impl; [exact HR|]. intros s [-> | Hs]; [reflexivity|].
    by apply plainName_facts in Hs as (_ & ? & _).
Qed.

Lemma rev_head (l : list ascii) :
  l <> [] -> exists c l', rev l = c :: l' /\ c ∈ l.
Proof.
  intros Hne. destruct (rev l) as [|c l'] eqn:Hrev.
  - apply (f_equal (@rev ascii)) in Hrev. rewrite rev_involutive in Hrev. done.
  - exists c, l'. split; [done|]. apply list_elem_of_In, in_rev.
    rewrite Hrev. by left.
Qed.

Lemma endsWith_slash_plain (x p : string) :
  plainName p = true -> endsWith "/" (x +:+ p) = false.
Proof.
  intros (Hne & Hfree & _)%plainName_facts. unfold endsWith.
  rewrite chars_app, rev_app_distr.
  assert (chars p <> []) as Hc by (by destruct p).
  destruct (rev_head _ Hc) as (c & l' & -> & Hin).
  pose proof (slash_free_chars _ Hfree) as Hall.
  rewrite Forall_forall in Hall. specialize (Hall c Hin).
  change (rev (chars "/")) with ["/"%char]. cbn [is_prefix app].
  apply andb_false_iff. left. apply Ascii.eqb_neq. congruence.
Qed.

Lemma plain_app_nonempty (x p : string) :
  plainName p = true -> String.eqb (x +:+ p) EmptyString = false.
Proof.
  intros (Hne & _)%plainName_facts. apply String.eqb_neq. intros E.
  apply (f_equal String.length) in E. rewrite <- !length_chars, chars_app, length_app in E.
  destruct p; [done | cbn in E; lia].
Qed.

(** Normalizing an absolute path whose pieces are empty or plain, the
    last one plain, removes the empty pieces and nothing else. *)
Lemma normalize_abs (init : list string) (last : string) :
  Forall (fun s => s = EmptyString \/ plainName s = true) init ->
  plainName last = true ->
  normalize (slashJoin (EmptyString :: init ++ [last]))
  = absPath (filter (fun s => s <> EmptyString) (init ++ [last])).
Proof.
  intros Hinit Hlast.
  assert (Forall (fun s => s = EmptyString \/ plainName s = true)
            (EmptyString :: init ++ [last])) as HR.
  { constructor; [by left|]. apply Forall_app. split; [exact Hinit|].
    constructor; [by right | constructor]. }
  assert (exists x, slashJoin (EmptyString :: init ++ [last]) = ("/" +:+ x) +:+ last)
    as [x Hx].
  { rewrite app_comm_cons, slashJoin_snoc by done.
    destruct init as [|a init].
    - exists EmptyString. reflexivity.
    - exists (slashJoin (a :: init) +:+ "/").
      change (slashJoin (EmptyString :: a :: init))
        with ("/" +:+ slashJoin (a :: init)).
      by rewrite !string_app_assoc. }
  assert (filter (fun s => s <> EmptyString) (EmptyString :: init ++ [last])
          = filter (fun s => s <> EmptyString) (init ++ [last])) as Hfilter
    by (by rewrite filter_cons, decide_False by auto).
  assert (exists y, slashJoin (filter (fun s => s <> EmptyString) (init ++ [last]))
                    = y +:+ last) as [y Hy].
  { rewrite filter_app, filter_cons, filter_nil.
    rewrite decide_True by (by apply plainName_facts in Hlast as [? _]).
    destruct (filter _ init) as [|a F].
    - by exists EmptyString.
    - exists (slashJoin (a :: F) +:+ "/"). rewrite slashJoin_snoc by done.
      by rewrite !string_app_assoc. }
  unfold normalize, absPath.
  destruct (chars (slashJoin (EmptyString :: init ++ [last]))) as [|c0 tl] eqn:Hchars.
  { rewrite Hx in Hchars. discriminate Hchars. }
  assert (c0 = "/"%char) as -> by (rewrite Hx in Hchars; by injection Hchars).
  change (is_slash "/") with true. cbn [negb].
  rewrite normalizeString_slashJoin by (done || exact HR).
  rewrite Hfilter, Hy, plain_app_nonempty by exact Hlast.
  rewrite (f_equal (endsWith "/") Hx).
  by rewrite endsWith_slash_plain by exact Hlast.
Qed.

(** Joining a plain name to a normalized absolute path appends it. *)
Lemma join_absPath (segs : list string) (item : string) :
  Forall (fun s => plainName s = true) segs ->
  plainName item = true ->
  join (absPath segs) item = absPath (segs ++ [item]).
Proof.
  intros Hsegs Hitem. unfold join.
  change (String.eqb (absPath segs) EmptyString) with false.
  rewrite String_eqb_false by (by apply plainName_facts in Hitem as [? _]).
  assert (Hfilter : forall l, Forall (fun s => plainName s = true) l ->
            filter (fun s => s <> EmptyString) l = l).
  { intros l Hl. apply filter_all. intros s Hs. rewrite Forall_forall in Hl.
    by destruct (plainName_facts s (Hl s Hs)) as [? _]. }
  destruct segs as [|s segs].
  - change (absPath [] +:+ "/" +:+ item)
      with (slashJoin (EmptyString :: [EmptyString] ++ [item])).
    rewrite normalize_abs; [|by constructor; [left|constructor] | exact Hitem].
    rewrite filter_app, filter_cons, decide_False, filter_nil by auto.
    by rewrite Hfilter by (by constructor).
  - assert (absPath (s :: segs) +:+ "/" +:+ item
            = slashJoin (EmptyString :: (s :: segs) ++ [item])) as ->.
    { rewrite app_comm_cons. rewrite slashJoin_snoc by done. reflexivity. }
    rewrite normalize_abs; [| |exact Hitem].
    + rewrite Hfilter; [reflexivity|]. apply Forall_app. split; [exact Hsegs|].
      by constructor.
    + eapply Forall_impl; [exact Hsegs|]. by right.
Qed.

End Normalize.

Section TreePaths.

Lemma fsnode_induction (P : fsnode -> Prop) :
  P FsFile -> P FsDirUnreadable -> P FsStatError ->
  (forall items, Forall (fun e => P e.2) items -> P (FsDir items)) ->
  forall node, P node.
Proof.
  intros Hfile Hunread Hstat Hdir. fix IH 1.
  intros [|items| |]; [exact Hfile | | exact Hunread | exact Hstat].
  apply Hdir. induction items as [|[s c] items IHitems]; constructor;
    [apply IH | exact IHitems].
Qed.

(** Every enumerated path is the directory followed by names of the
    tree, none of them ignored. *)
Lemma walk_paths (node : fsnode) :
  forall segs : list string,
    Forall (fun s => plainName s = true) segs ->
    plainTree node = true ->
    forall p, p ∈ walk (absPath segs) node ->
      exists names, names <> [] /\ p = absPath (segs ++ names)
                    /\ Forall visibleName names.
Proof.
  induction node as [| | |items IHitems] using fsnode_induction;
    intros segs Hsegs Hplain p; cbn [walk]; try (intros H; by inversion H).
  cbn [plainTree] in Hplain.
  induction items as [|[item child] items IHl]; [intros H; by inversion H|].
  apply Forall_cons in IHitems as [IHchild IHitems].
  apply andb_true_iff in Hplain as [Hplain Hrest].
  apply andb_true_iff in Hplain as [Hitem Hchild].
  specialize (IHl IHitems Hrest).
  destruct (has item ignoredPaths) eqn:Hign; [exact IHl|].
  rewrite join_absPath by assumption.
  assert (Forall (fun s => plainName s = true) (segs ++ [item])) as Hsegs'.
  { apply Forall_app. split; [exact Hsegs | by constructor]. }
  assert (forall q, q ∈ walk (absPath (segs ++ [item])) child ->
            exists names, names <> [] /\ q = absPath (segs ++ names)
                          /\ Forall visibleName names) as Hsub.
  { intros q Hq. destruct (IHchild _ Hsegs' Hchild q Hq) as (names & _ & -> & Hvis).
    exists (item :: names). split; [done|]. split.
    - by rewrite <- app_assoc.
    - by constructor. }
  destruct child as [|its| |].
  - intros [-> | Hin]%elem_of_cons; [|by apply IHl].
    exists [item]. split; [done|]. split; [done|]. by repeat constructor.
  - intros [Hin | Hin]%elem_of_app; [by apply Hsub | by apply IHl].
  - intros [Hin | Hin]%elem_of_app; [by apply Hsub | by apply IHl].
  - intros H. by inversion H.
Qed.

Lemma take_while_app_stop (p : ascii -> bool) (l r : list ascii) (d : ascii) :
  Forall (fun c => p c = true) l -> p d = false ->
  take_while p (l ++ d :: r) = l.
Proof.
  intros Hl Hd. induction Hl as [|c l Hc _ IH]; cbn; [by rewrite Hd|].
  by rewrite Hc, IH.
Qed.

Lemma absPath_snoc (segs : list string) (name : string) :
  exists x, absPath (segs ++ [name]) = (x +:+ "/") +:+ name.
Proof.
  unfold absPath. destruct segs as [|s segs].
  - by exists EmptyString.
  - exists ("/" +:+ slashJoin (s :: segs)). rewrite slashJoin_snoc by done.
    by rewrite !string_app_assoc.
Qed.

(** The base name of a path that ends with a plain name is that name. *)
Lemma basename_plain (x name : string) :
  plainName name = true -> basename ((x +:+ "/") +:+ name) = name.
Proof.
  intros (Hne & Hfree & _)%plainName_facts. unfold basename, last_component_rev.
  rewrite !chars_app, !rev_app_distr.
  change (rev (chars "/")) with ["/"%char]. cbn [app].
  assert (chars name <> []) as Hc by (by destruct name).
  pose proof (slash_free_chars _ Hfree) as Hall.
  assert (Forall (fun c => negb (is_slash c) = true) (rev (chars name))) as Hrev.
  { apply Forall_forall. intros c Hin%list_elem_of_In%in_rev%list_elem_of_In.
    rewrite Forall_forall in Hall. apply negb_true_iff, Ascii.eqb_neq. by apply Hall. }
  destruct (rev_head _ Hc) as (c & l' & Hrevc & Hin).
  assert (drop_while is_slash (rev (chars name) ++ "/"%char :: rev (chars x))
          = rev (chars name) ++ "/"%char :: rev (chars x)) as ->.
  { rewrite Hrevc in Hrev |- *. apply Forall_cons in Hrev as [Hc0 _].
    cbn. apply negb_true_iff in Hc0. by rewrite Hc0. }
  rewrite take_while_app_stop by (exact Hrev || reflexivity).
  by rewrite rev_involutive, str_of_chars.
Qed.

Lemma split_absPath (s : string) (segs : list string) :
  Forall (fun s => plainName s = true) (s :: segs) ->
  split "/" (absPath (s :: segs)) = EmptyString :: s :: segs.
Proof.
  intros Hsegs. change (absPath (s :: segs)) with (slashJoin (EmptyString :: s :: segs)).
  apply split_slashJoin; [done|]. constructor; [reflexivity|].
  eapply Forall_impl; [exact Hsegs|]. intros t Ht.
  by apply plainName_facts in Ht as (_ & ? & _).
Qed.

End TreePaths.

Lemma getAllFiles_tree_paths (segs : list string)
    (node : option fsnode) (p : string) :
  Forall (fun s => plainName s = true) segs ->
  (forall n, node = Some n -> plainTree n = true) ->
  p ∈ getAllFiles (absPath segs) node ->
  exists dirs name,
    p = absPath (segs ++ dirs ++ [name])
    /\ basename p = name
    /\ Forall visibleName (dirs ++ [name]).
Proof.
  intros Hsegs Hplain Hin.
  assert (exists n, node = Some n /\ p ∈ walk (absPath segs) n) as (n & -> & Hw).
  { destruct node as [[]|]; cbn [getAllFiles] in Hin; try by inversion Hin.
    all: by eexists. }
  destruct (walk_paths n segs Hsegs (Hplain n eq_refl) p Hw) as (names & Hne & -> & Hvis).
  destruct (exists_last Hne) as (dirs & name & ->).
  exists dirs, name. split; [reflexivity|]. split; [|exact Hvis].
  rewrite app_assoc. destruct (absPath_snoc (segs ++ dirs) name) as [x ->].
  apply basename_plain. apply Forall_app in Hvis as [_ Hname].
  by apply Forall_cons in Hname as [[? _] _].
Qed.



Lemma absPath_inj (l1 l2 : list string) :
  Forall (fun s => plainName s = true) l1 ->
  Forall (fun s => plainName s = true) l2 ->
  l1 <> [] -> l2 <> [] -> absPath l1 = absPath l2 -> l1 = l2.
Proof.
  intros H1 H2 Hn1 Hn2 Heq. destruct l1 as [|a l1], l2 as [|b l2]; try done.
  apply (f_equal (split "/")) in Heq. rewrite !split_absPath in Heq by assumption.
  congruence.
Qed.

Lemma visible_plain (names : list string) :
  Forall visibleName names -> Forall (fun s => plainName s = true) names.
Proof. intros H. eapply Forall_impl; [exact H|]. by intros s [? _]. Qed.

(** In a plain world the paths under [src] and under [public] differ. *)
Lemma plain_world_disjoint (w : world) (segs : list string) (f : string) :
  plainWorld w segs -> f ∈ sourceFiles w -> f ∈ publicFiles w -> False.
Proof.
  intros (Hcwd & Hsegs & Hsrc & Hpub) Hs Hp.
  unfold sourceFiles, sourceFilesOf in Hs. apply list_elem_of_filter in Hs as [_ Hs].
  unfold publicFiles in Hp. rewrite Hcwd in Hs, Hp.
  rewrite join_absPath in Hs, Hp by (exact Hsegs || reflexivity).
  assert (forall d, plainName d = true ->
            Forall (fun s => plainName s = true) (segs ++ [d])) as Hd.
  { intros d Hplain. apply Forall_app. split; [exact Hsegs | by constructor]. }
  apply getAllFiles_tree_paths in Hs as (d1 & n1 & -> & _ & Hv1);
    [|by apply Hd | exact Hsrc].
  apply getAllFiles_tree_paths in Hp as (d2 & n2 & Heq & _ & Hv2);
    [|by apply Hd | exact Hpub].
  apply absPath_inj in Heq.
  - rewrite <- !app_assoc in Heq. apply app_inv_head in Heq. discriminate Heq.
  - apply Forall_app. split; [by apply Hd | by apply visible_plain].
  - apply Forall_app. split; [by apply Hd | by apply visible_plain].
  - by destruct segs.
  - by destruct segs.
Qed.

(** X19.  In a project whose working directory is a normalized absolute
    path and whose entries have plain names, no path is both a source
    file and a public file.  Hence a critical source file is never
    reported, whatever the index holds, and neither is a public file
    whose name is on the always-used list. *)
Theorem protected_files_are_never_reported (w : world) (segs : list string) :
  plainWorld w segs ->
  (forall f, f ∈ sourceFiles w -> f ∉ publicFiles w)
  /\ (forall f, f ∈ sourceFiles w -> isNextJsSystemFile f = true ->
                f ∉ reportedPaths (findUnusedFiles w))
  /\ (forall f, f ∈ publicFiles w -> alwaysUsedAsset (basename f) = true ->
                f ∉ reportedPaths (findUnusedFiles w)).
Proof.
  intros Hw. split; [|split].
  - intros f Hs Hp. by eapply plain_world_disjoint.
  - intros f Hs Hcrit (u & -> & Hu)%list_elem_of_fmap.
    apply reported_cases in Hu as [(g & Hg & He) | (g & Hg & He)].
    + apply sourceEntry_Some in He as (Hunused & size & _ & ->). cbn [uf_path] in *.
      apply unused_not_critical in Hunused. congruence.
    + apply publicEntry_Some in He as (_ & _ & size & _ & ->). cbn [uf_path] in *.
      by eapply plain_world_disjoint.
  - intros f Hp Hlist (u & -> & Hu)%list_elem_of_fmap.
    apply reported_cases in Hu as [(g & Hg & He) | (g & Hg & He)].
    + apply sourceEntry_Some in He as (_ & size & _ & ->). cbn [uf_path] in *.
      by eapply plain_world_disjoint.
    + apply publicEntry_Some in He as (Hnot & _ & size & _ & ->). cbn [uf_path] in *.
      congruence.
Qed.

Lemma protected_files_are_never_reported_witness :
  ("/r/src/app/page.tsx" ∉ reportedPaths (findUnusedFiles demoWorld))
  /\ ("/r/public/robots.txt" ∉ reportedPaths (findUnusedFiles demoWorld)).
Proof.
  assert (plainWorld demoWorld ["r"]) as Hw.
  { split; [reflexivity|]. split; [by repeat constructor|].
    split; intros n [= <-]; vm_compute; reflexivity. }
  destruct (protected_files_are_never_reported demoWorld ["r"] Hw) as (_ & Hsrc & Hpub).
  split.
  - apply Hsrc; [decide_closed | vm_compute; reflexivity].
  - apply Hpub; [decide_closed | vm_compute; reflexivity].
Defined.

(** * Sanity checks of the further definitions *)

Module FurtherExamples.
Example grouping_demo :
  groupedFiles (unusedFiles (findUnusedFiles demoWorld))
  = [ (component, [mkUnusedFile "/r/src/App.tsx" 10 component None]);
      (util, [mkUnusedFile "/r/src/orphan.ts" 10 util None]);
      (media, [mkUnusedFile "/r/public/logo.png" 10 media None]) ].
Proof. vm_compute. reflexivity. Qed.
Example grouping_order :
  fst <$> groupedFiles
            [ mkUnusedFile "b.ts" 1 util None; mkUnusedFile "A.tsx" 2 component None;
              mkUnusedFile "c.ts" 4 util None ]
  = [util; component]
  /\ sizeForType [ mkUnusedFile "b.ts" 1 util None; mkUnusedFile "c.ts" 4 util None ] = 5%N.
Proof. split; vm_compute; reflexivity. Qed.
Example absPath_demo :
  absPath [] = "/" /\ absPath ["r"; "src"] = "/r/src"
  /\ join (absPath []) "src" = "/src"
  /\ plainName "node_modules" = true /\ plainName ".." = false
  /\ plainName "a/b" = false.
Proof. repeat split. Qed.
Example file_base_name :
  fileBaseNameOf "/r/src/Button.test.tsx" = "Button.test"
  /\ fileBaseNameOf "/r/src/.env" = ".env"
  /\ otherKeys "/a" [("/a", textRecord "/a" "x"); ("/b", textRecord "/b" "y")] = ["/b"].
Proof. repeat split. Qed.
End FurtherExamples.
